(** * Channel serialization of aslam_cv: a shallow embedding

    This development embeds
    [aslam_cv/include/aslam/common/channel-serialization.h] and states its
    behaviour as theorems.

    Conventions.
    - A C++ integer is a [Z]; every implicit conversion of the source
      ([int] to [uint32_t], [int] to [size_t], [Eigen::Index] to [int])
      is written out as a reduction modulo a power of two (LP64 target).
    - Raw memory is a [list byte].  A [const char*] argument is the extent
      that is readable behind the pointer, or [None] for [nullptr].
    - A function that can abort in a glog [CHECK], throw, or run into
      undefined behaviour returns an [outcome]. *)

From Stdlib Require Import ZArith Lia DecimalString DecimalPos.
From Stdlib.Strings Require Import Byte Ascii String.
From stdpp Require Import base option list gmap.

Local Open Scope Z_scope.

(** ** Outcomes of a call *)

(** The glog checks of the header, one constructor per [CHECK_*] line. *)
Inductive check : Set :=
  | CHECK_NOTNULL_headerInformation   (* line 29 *)
  | CHECK_GE_rows_0                   (* line 39 *)
  | CHECK_GE_cols_0                   (* line 40 *)
  | CHECK_NOTNULL_string              (* lines 41, 160 *)
  | CHECK_GT_totalSize_0              (* line 47 *)
  | CHECK_NOTNULL_totalSize           (* line 64 *)
  | CHECK_NOTNULL_buffer              (* lines 65, 178 *)
  | CHECK_NOTNULL_matrix              (* lines 106, 142 *)
  | CHECK_GE_size_header_size         (* line 108 *)
  | CHECK_EQ_header_rows              (* line 116 *)
  | CHECK_EQ_header_cols              (* line 119 *)
  | CHECK_EQ_header_depth             (* line 121 *)
  | CHECK_EQ_header_channels          (* line 122 *)
  | CHECK_EQ_size_total_size          (* line 134 *)
  | CHECK_NOTNULL_value               (* lines 170, 188 *)
  | CHECK_string_not_empty            (* line 171 *)
  | CHECK_NOTNULL_size                (* line 179 *)
  | CHECK_EQ_sizeof_size.             (* lines 180, 189 *)

(** Exceptions of [std::stoll]. *)
Inductive exn : Set := invalid_argument | out_of_range.

Inductive outcome (A : Type) : Type :=
  | Returns (a : A)        (* control comes back to the caller *)
  | Fatal (c : check)      (* a CHECK failed: the process aborts *)
  | Throws (e : exn)       (* a C++ exception leaves the function *)
  | Undefined.             (* out-of-bounds access *)
Arguments Returns {A} a.
Arguments Fatal {A} c.
Arguments Throws {A} e.
Arguments Undefined {A}.

Definition bind {A B} (o : outcome A) (k : A -> outcome B) : outcome B :=
  match o with
  | Returns a => k a
  | Fatal c => Fatal c
  | Throws e => Throws e
  | Undefined => Undefined
  end.

Notation "'do' x <- o ; k" := (bind o (fun x => k))
  (at level 10, x name, o at level 100, k at level 200,
   format "'[v' 'do'  x  <-  o ; '/' k ']'").
Notation "'do' ' p <- o ; k" := (bind o (fun x => let 'p := x in k))
  (at level 10, p pattern, o at level 100, k at level 200,
   format "'[v' 'do'  ' p  <-  o ; '/' k ']'").

(** [CHECK(b)]: go on when [b] holds, abort otherwise. *)
Definition CHECK (c : check) (b : bool) : outcome unit :=
  if b then Returns tt else Fatal c.

(** [CHECK_NOTNULL(p)] for a pointer modelled as an [option]. *)
Definition CHECK_NOTNULL {A} (c : check) (p : option A) : outcome A :=
  match p with Some a => Returns a | None => Fatal c end.

Definition is_fatal {A} (o : outcome A) : Prop :=
  match o with Fatal _ => True | _ => False end.

(** ** Machine integers *)

Definition to_uint32 (z : Z) : Z := z mod 2 ^ 32.
Definition to_size_t (z : Z) : Z := z mod 2 ^ 64.
(** Narrowing of a 64-bit value to [int] (two's complement wrap). *)
Definition to_int (z : Z) : Z := (z + 2 ^ 31) mod 2 ^ 32 - 2 ^ 31.

Definition INT_MAX : Z := 2 ^ 31 - 1.
Definition SIZE_MAX : Z := 2 ^ 64 - 1.

(** ** Bytes *)

Definition byte_of_Z (z : Z) : byte :=
  match Byte.of_N (Z.to_N (z mod 256)) with Some b => b | None => x00 end.
Definition Z_of_byte (b : byte) : Z := Z.of_N (Byte.to_N b).

(** Object representation of an [n]-byte unsigned integer, lowest byte
    first. *)
Fixpoint le_bytes (n : nat) (z : Z) : list byte :=
  match n with
  | O => []
  | S n' => byte_of_Z z :: le_bytes n' (z / 256)
  end.

Fixpoint le_value (bs : list byte) : Z :=
  match bs with
  | [] => 0
  | b :: bs' => Z_of_byte b + 256 * le_value bs'
  end.

(** The [n] bytes found [off] bytes into [bs]. *)
Definition slice (off n : Z) (bs : list byte) : list byte :=
  take (Z.to_nat n) (drop (Z.to_nat off) bs).

(** [memcpy(dst + off, src, n)]: undefined when either side is too
    short. *)
Definition memcpy (dst : list byte) (off : Z) (src : list byte) (n : Z)
  : outcome (list byte) :=
  if decide (0 <= off /\ 0 <= n /\ n <= Z.of_nat (length src)
             /\ off + n <= Z.of_nat (length dst))
  then Returns (take (Z.to_nat off) dst ++ take (Z.to_nat n) src
                ++ drop (Z.to_nat (off + n)) dst)
  else Undefined.

(** [buffer + n] on a possibly null pointer. *)
Definition ptr_add (buffer : option (list byte)) (n : Z)
  : option (list byte) :=
  drop (Z.to_nat n) <$> buffer.

(** [memcpy] whose source is a possibly null pointer. *)
Definition memcpy_from (dst : list byte) (off : Z)
    (src : option (list byte)) (n : Z) : outcome (list byte) :=
  match src with
  | Some bs => memcpy dst off bs n
  | None => Undefined
  end.

(** ** The header record (lines 16-24) *)

Record HeaderInformation : Set := {
  rows : Z;       (* uint32_t *)
  cols : Z;       (* uint32_t *)
  depth : Z;      (* uint32_t *)
  channels : Z    (* uint32_t *)
}.

(** The member functions [size], [serializeToBuffer] and
    [deSerializeFromBuffer] are declared on lines 21-23 and defined in a
    translation unit of their own.  The templates of the header are
    therefore embedded over an arbitrary implementation of the three.
    [size] is called on a header whose fields are not yet initialised
    (line 108), so it is a constant.  The two transfer functions return
    the C++ [bool]; the writer also returns the new content of the
    destination. *)
Module Header.

Record methods : Type := {
  size : Z;
  serializeToBuffer :
    HeaderInformation -> option (list byte) -> Z ->
    outcome (bool * list byte);
  deSerializeFromBuffer :
    option (list byte) -> Z -> outcome (option HeaderInformation)
}.

(** Modelled from the spec: the bodies of [HeaderInformation::size],
    [HeaderInformation::serializeToBuffer] and
    [HeaderInformation::deSerializeFromBuffer], which the header only
    declares.  The spec gives a constant size of four 4-byte fields, the
    fields appended in declaration order without padding in host byte
    order (taken little-endian here), a writer and a reader that fail on
    a null buffer and otherwise trust the caller's bounds. *)
Definition spec_size : Z := 4 + 4 + 4 + 4.

(** Modelled from the spec: the wire layout of the header, [rows] at
    offset 0, [cols] at 4, [depth] at 8, [channels] at 12. *)
Definition spec_fields (h : HeaderInformation) : list byte :=
  le_bytes 4 (rows h) ++ le_bytes 4 (cols h) ++
  le_bytes 4 (depth h) ++ le_bytes 4 (channels h).

(** Modelled from the spec: [HeaderInformation::serializeToBuffer]
    writes the four fields at [offset] and fails on a null buffer. *)
Definition spec_serializeToBuffer (h : HeaderInformation)
    (buffer : option (list byte)) (offset : Z)
  : outcome (bool * list byte) :=
  match buffer with
  | None => Returns (false, [])
  | Some bs =>
      do bs' <- memcpy bs offset (spec_fields h) spec_size;
      Returns (true, bs')
  end.

(** Modelled from the spec: [HeaderInformation::deSerializeFromBuffer]
    reads the four fields back from [offset], fails on a null buffer and
    does not validate the field values. *)
Definition spec_deSerializeFromBuffer (buffer : option (list byte))
    (offset : Z) : outcome (option HeaderInformation) :=
  match buffer with
  | None => Returns None
  | Some bs =>
      if decide (0 <= offset /\
                 offset + spec_size <= Z.of_nat (length bs))
      then Returns (Some {| rows := le_value (slice offset 4 bs);
                            cols := le_value (slice (offset + 4) 4 bs);
                            depth := le_value (slice (offset + 8) 4 bs);
                            channels :=
                              le_value (slice (offset + 12) 4 bs) |})
      else Undefined
  end.

(** Modelled from the spec: the three member functions together. *)
Definition spec : methods := {|
  size := spec_size;
  serializeToBuffer := spec_serializeToBuffer;
  deSerializeFromBuffer := spec_deSerializeFromBuffer
|}.

(** The fields of a header are [uint32_t] values. *)
Definition in_range (h : HeaderInformation) : Prop :=
  0 <= rows h < 2 ^ 32 /\ 0 <= cols h < 2 ^ 32 /\
  0 <= depth h < 2 ^ 32 /\ 0 <= channels h < 2 ^ 32.

(** What the round trip needs of an implementation: [size] is a
    [size_t]; the writer succeeds on a buffer that has room at offset 0
    and keeps its length; the reader gets the header back from the bytes
    the writer produced, whatever follows them. *)
Record lawful (c : methods) : Prop := {
  size_range : 0 <= size c < 2 ^ 64;
  write_length : forall h bs off ok bs',
    serializeToBuffer c h (Some bs) off = Returns (ok, bs') ->
    length bs' = length bs;
  write_total : forall h bs,
    size c <= Z.of_nat (length bs) ->
    exists bs', serializeToBuffer c h (Some bs) 0 = Returns (true, bs');
  read_write : forall h bs bs' tail,
    in_range h ->
    serializeToBuffer c h (Some bs) 0 = Returns (true, bs') ->
    deSerializeFromBuffer c
      (Some (take (Z.to_nat (size c)) bs' ++ tail)) 0
    = Returns (Some h)
}.

End Header.

(** ** Scalar types *)

(** What the templates use of [SCALAR]: [sizeof(SCALAR)] and the OpenCV
    tag [cv::DataType<SCALAR>::depth]. *)
Record ScalarType : Set := {
  sizeof : Z;
  cv_depth : Z
}.

(** OpenCV's tags for the element types it knows ([CV_8U] .. [CV_64F]). *)
Definition CV_8U : Z := 0.
Definition CV_8S : Z := 1.
Definition CV_16U : Z := 2.
Definition CV_16S : Z := 3.
Definition CV_32S : Z := 4.
Definition CV_32F : Z := 5.
Definition CV_64F : Z := 6.

Definition scalar_uchar : ScalarType := {| sizeof := 1; cv_depth := CV_8U |}.
Definition scalar_int : ScalarType := {| sizeof := 4; cv_depth := CV_32S |}.

(** ** Eigen matrices *)

(** An object of type [Eigen::Matrix<SCALAR, ROWS, COLS>]: its shape and
    the bytes behind [data()] (column-major, [sizeof(SCALAR)] bytes per
    coefficient). *)
Record Matrix : Set := {
  m_rows : Z;              (* rows(), an Eigen::Index *)
  m_cols : Z;              (* cols() *)
  m_data : list byte       (* data() *)
}.

Definition Dynamic : Z := -1.

(** [m] is a value of type [Eigen::Matrix<SCALAR, ROWS, COLS>]. *)
Definition has_type (S : ScalarType) (ROWS COLS : Z) (m : Matrix) : Prop :=
  0 <= m_rows m /\ 0 <= m_cols m /\
  (ROWS <> Dynamic -> m_rows m = ROWS) /\
  (COLS <> Dynamic -> m_cols m = COLS) /\
  Z.of_nat (length (m_data m)) = sizeof S * (m_rows m * m_cols m).

(** ** The heap of [new char[]] and [delete[]] *)

(** Allocation is idealised: [new] always finds room.  A fresh array
    holds indeterminate bytes, here [junk]. *)
Definition new_array (junk : byte) (h : gmap nat (list byte)) (n : Z)
  : nat * gmap nat (list byte) :=
  let l := fresh (dom h) in (l, <[l := replicate (Z.to_nat n) junk]> h).

Definition delete_array (h : gmap nat (list byte)) (l : nat)
  : gmap nat (list byte) :=
  delete l h.

(** Product of two [size_t] values. *)
Definition mul_size_t (a b : Z) : Z := to_size_t (a * b).
Definition add_size_t (a b : Z) : Z := to_size_t (a + b).

(** [std::string::resize(n)]: truncate, or pad with zero bytes. *)
Definition string_resize (s : list byte) (n : Z) : list byte :=
  take (Z.to_nat n) s ++ replicate (Z.to_nat n - length s)%nat x00.

(** ** Raw-pointer encoders (lines 26-81) *)

Module Raw.
Section Raw.

Variable SCALAR : ScalarType.
Variable header_impl : Header.methods.
Variable junk : byte.

(** A local [HeaderInformation header;] before it is filled in. *)
Definition uninitialized : HeaderInformation :=
  let w := le_value (replicate 4 junk) in
  {| rows := w; cols := w; depth := w; channels := w |}.

(** Lines 26-34. *)
Definition makeHeaderInformation (rows cols channels : Z)
    (headerInformation : option HeaderInformation)
  : outcome HeaderInformation :=
  do _ <- CHECK_NOTNULL CHECK_NOTNULL_headerInformation headerInformation;
  Returns {| rows := to_uint32 rows;
             cols := to_uint32 cols;
             channels := to_uint32 channels;
             depth := to_uint32 (cv_depth SCALAR) |}.

(** [sizeof(SCALAR) * rows * cols * channels], evaluated left to right
    in [size_t]. *)
Definition matrixSize_of (rows cols channels : Z) : Z :=
  mul_size_t
    (mul_size_t (mul_size_t (sizeof SCALAR) (to_size_t rows))
                (to_size_t cols))
    (to_size_t channels).

(** Lines 36-59.  The result is the returned [bool] and the content of
    [*string]. *)
Definition serializeToString (matrixData : list byte)
    (rows cols channels : Z) (string : option (list byte))
  : outcome (bool * list byte) :=
  do _ <- CHECK CHECK_GE_rows_0 (0 <=? rows);
  do _ <- CHECK CHECK_GE_cols_0 (0 <=? cols);
  do str <- CHECK_NOTNULL CHECK_NOTNULL_string string;
  do header <- makeHeaderInformation rows cols channels (Some uninitialized);
  let matrixSize := matrixSize_of rows cols channels in
  let totalSize := add_size_t matrixSize (Header.size header_impl) in
  do _ <- CHECK CHECK_GT_totalSize_0 (0 <? totalSize);
  let str := string_resize str totalSize in
  do '(success, buffer) <-
    Header.serializeToBuffer header_impl header (Some str) 0;
  if negb success then Returns (false, buffer)
  else
    let offset := Header.size header_impl in
    do buffer <- memcpy buffer offset matrixData matrixSize;
    Returns (true, buffer).

(** What [serializeToBuffer] leaves behind: the returned [bool], the
    pointer in [*buffer], the number in [*totalSize], and the heap. *)
Record buffer_result : Type := {
  success : bool;
  buffer_out : option nat;
  totalSize_out : Z;
  heap_out : gmap nat (list byte)
}.

(** Lines 61-81.  [buffer] and [totalSize] are the two output pointers:
    [None] is a null pointer, [Some v] points to a cell holding [v]. *)
Definition serializeToBuffer (heap : gmap nat (list byte))
    (matrixData : list byte) (rows cols channels : Z)
    (buffer : option (option nat)) (totalSize : option Z)
  : outcome buffer_result :=
  do _ <- CHECK_NOTNULL CHECK_NOTNULL_totalSize totalSize;
  do _ <- CHECK_NOTNULL CHECK_NOTNULL_buffer buffer;
  do header <- makeHeaderInformation rows cols channels (Some uninitialized);
  let matrixSize := matrixSize_of rows cols channels in
  let totalSize := add_size_t matrixSize (Header.size header_impl) in
  let '(l, heap) := new_array junk heap totalSize in
  do '(success, bytes) <-
    Header.serializeToBuffer header_impl header (heap !! l) 0;
  let heap := <[l := bytes]> heap in
  if negb success then
    Returns {| success := false; buffer_out := None;
               totalSize_out := totalSize;
               heap_out := delete_array heap l |}
  else
    let offset := Header.size header_impl in
    do bytes <- memcpy bytes offset matrixData matrixSize;
    Returns {| success := true; buffer_out := Some l;
               totalSize_out := totalSize;
               heap_out := <[l := bytes]> heap |}.

End Raw.
End Raw.

(** ** Eigen matrix overloads (lines 83-144) *)

Module Eigen.
Section Eigen.

Variable SCALAR : ScalarType.
Variables ROWS COLS : Z.
Variable header_impl : Header.methods.
Variable junk : byte.

(** [Eigen::Matrix::resize(r, c)]: the storage is kept when the number
    of coefficients stays the same and is reallocated, with indeterminate
    content, when it changes. *)
Definition resize (m : Matrix) (r c : Z) : Matrix :=
  {| m_rows := r;
     m_cols := c;
     m_data := if decide (r * c = m_rows m * m_cols m) then m_data m
               else replicate (Z.to_nat (sizeof SCALAR * (r * c))) junk |}.

(** The argument of [LOG(ERROR)] on line 112, [std::string(buffer, size)]:
    it reads [size] bytes behind [buffer]. *)
Definition std_string (buffer : option (list byte)) (size : Z)
  : outcome (list byte) :=
  match buffer with
  | Some bs =>
      if decide (size <= Z.of_nat (length bs))
      then Returns (take (Z.to_nat size) bs) else Undefined
  | None => Undefined
  end.

(** Lines 83-91.  [matrix.rows()] and [matrix.cols()] are narrowed to the
    [int] parameters of the raw-pointer overload. *)
Definition serializeToBuffer (heap : gmap nat (list byte)) (matrix : Matrix)
    (buffer : option (option nat)) (size : option Z)
  : outcome Raw.buffer_result :=
  let matrixData := m_data matrix in
  let numChannels := 1 in
  Raw.serializeToBuffer SCALAR header_impl junk heap matrixData
    (to_int (m_rows matrix)) (to_int (m_cols matrix)) numChannels
    buffer size.

(** Lines 93-101. *)
Definition serializeToString (matrix : Matrix) (string : option (list byte))
  : outcome (bool * list byte) :=
  let matrixData := m_data matrix in
  let numChannels := 1 in
  Raw.serializeToString SCALAR header_impl junk matrixData
    (to_int (m_rows matrix)) (to_int (m_cols matrix)) numChannels string.

(** Lines 124-130: only the dynamic dimensions are resized. *)
Definition resize_dynamic (header : HeaderInformation) (m : Matrix)
  : Matrix :=
  if (ROWS =? Dynamic) && (COLS =? Dynamic) then
    resize m (rows header) (cols header)
  else if (ROWS =? Dynamic) && negb (COLS =? Dynamic) then
    resize m (rows header) (m_cols m)
  else if negb (ROWS =? Dynamic) && (COLS =? Dynamic) then
    resize m (m_rows m) (cols header)
  else m.

(** Lines 103-137.  The result is the returned [bool] and the content of
    [*matrix]. *)
Definition deSerializeFromBuffer (buffer : option (list byte)) (size : Z)
    (matrix : option Matrix) : outcome (bool * Matrix) :=
  do m <- CHECK_NOTNULL CHECK_NOTNULL_matrix matrix;
  do _ <- CHECK CHECK_GE_size_header_size (Header.size header_impl <=? size);
  do parsed <- Header.deSerializeFromBuffer header_impl buffer 0;
  match parsed with
  | None =>
      do _ <- std_string buffer size;
      Returns (false, m)
  | Some header =>
      do _ <- CHECK CHECK_EQ_header_rows
                (if negb (ROWS =? Dynamic)
                 then rows header =? to_uint32 ROWS else true);
      do _ <- CHECK CHECK_EQ_header_cols
                (if negb (COLS =? Dynamic)
                 then cols header =? to_uint32 COLS else true);
      do _ <- CHECK CHECK_EQ_header_depth
                (depth header =? to_uint32 (cv_depth SCALAR));
      do _ <- CHECK CHECK_EQ_header_channels (1 =? channels header);
      let m := resize_dynamic header m in
      let matrix_size :=
        mul_size_t (mul_size_t (sizeof SCALAR) (to_size_t (m_rows m)))
                   (to_size_t (m_cols m)) in
      let total_size := add_size_t matrix_size (Header.size header_impl) in
      do _ <- CHECK CHECK_EQ_size_total_size (size =? total_size);
      do data <- memcpy_from (m_data m) 0
                   (ptr_add buffer (Header.size header_impl)) matrix_size;
      Returns (true, {| m_rows := m_rows m; m_cols := m_cols m;
                        m_data := data |})
  end.

(** Lines 139-144: [string.data()] and [string.size()]. *)
Definition deSerializeFromString (string : list byte)
    (matrix : option Matrix) : outcome (bool * Matrix) :=
  do _ <- CHECK_NOTNULL CHECK_NOTNULL_matrix matrix;
  deSerializeFromBuffer (Some string) (Z.of_nat (length string)) matrix.

End Eigen.
End Eigen.

(** ** Scalar codecs (lines 158-192) *)

(** An integer type: [char], [short], [int], [long], [long long] and
    their signed and unsigned variants.  The 8-bit ones are the
    character types.  (A floating-point scalar, which a stream writes in
    floating notation, is not covered.) *)
Record IntegerType : Set := {
  bits : Z;
  is_signed : bool
}.

Definition int32_t : IntegerType := {| bits := 32; is_signed := true |}.
Definition uint64_t : IntegerType := {| bits := 64; is_signed := false |}.


(** [static_cast<SCALAR>(z)]. *)
Definition narrow (T : IntegerType) (z : Z) : Z :=
  if is_signed T
  then (z + 2 ^ (bits T - 1)) mod 2 ^ bits T - 2 ^ (bits T - 1)
  else z mod 2 ^ bits T.

(** Object representation of a value (two's complement, lowest byte
    first). *)
Definition object_bytes (T : IntegerType) (v : Z) : list byte :=
  le_bytes (Z.to_nat (bits T / 8)) (v mod 2 ^ bits T).

Definition object_value (T : IntegerType) (bs : list byte) : Z :=
  narrow T (le_value bs).

Definition LLONG_MIN : Z := - 2 ^ 63.
Definition LLONG_MAX : Z := 2 ^ 63 - 1.

(** [std::isspace] in the C locale. *)
Definition isspace (a : ascii) : bool :=
  let n := N_of_ascii a in
  ((n =? 32) || ((9 <=? n) && (n <=? 13)))%N.

Definition digit_of (a : ascii) : option Z :=
  let n := Z.of_N (N_of_ascii a) in
  if (48 <=? n) && (n <=? 57) then Some (n - 48) else None.

Fixpoint skip_spaces (s : string) : string :=
  match s with
  | String a s' => if isspace a then skip_spaces s' else s
  | EmptyString => s
  end.

(** Value of the longest prefix of decimal digits, [None] without one. *)
Fixpoint digits (acc : option Z) (s : string) : option Z :=
  match s with
  | String a s' =>
      match digit_of a with
      | Some d => digits (Some (10 * default 0 acc + d)) s'
      | None => acc
      end
  | EmptyString => acc
  end.

(** [std::stoll(s)] with its default base 10: blanks, a sign, digits. *)
Definition stoll (s : string) : outcome Z :=
  let s := skip_spaces s in
  let '(negative, s) :=
    match s with
    | String a s' =>
        if (a =? "-")%char then (true, s')
        else if (a =? "+")%char then (false, s')
        else (false, s)
    | EmptyString => (false, s)
    end in
  match digits None s with
  | None => Throws invalid_argument
  | Some n =>
      let v := if negative : bool then - n else n in
      if (LLONG_MIN <=? v) && (v <=? LLONG_MAX) then Returns v
      else Throws out_of_range
  end.

(** Decimal digits, a minus sign in front of a negative number. *)
Definition decimal (v : Z) : string := NilZero.string_of_int (Z.to_int v).

(** [stream << value] for a [value] of type [T]: [operator<<] writes a
    [char], [signed char] or [unsigned char] as the one character with
    that code, and every wider integer as its decimal digits. *)
Definition stream_insert (T : IntegerType) (v : Z) : string :=
  if bits T =? 8 then String (ascii_of_byte (byte_of_Z v)) EmptyString
  else decimal v.

Module Scalar.
Section Text.

Variable SCALAR : IntegerType.

(** Lines 158-166.  The result is the returned [bool] and the content of
    [*string]. *)
Definition serializeToString (value : Z) (string : option String.string)
  : outcome (bool * String.string) :=
  do _ <- CHECK_NOTNULL CHECK_NOTNULL_string string;
  let values_as_string := stream_insert SCALAR value in
  Returns (true, values_as_string).

(** Lines 168-174.  The result is the returned [bool] and [*value]. *)
Definition deSerializeFromString (string : String.string) (value : option Z)
  : outcome (bool * Z) :=
  do _ <- CHECK_NOTNULL CHECK_NOTNULL_value value;
  do _ <- CHECK CHECK_string_not_empty
            (negb (String.length string =? 0)%nat);
  do parsed <- stoll string;
  Returns (true, narrow SCALAR parsed).

End Text.

Section Raw.

Variable SCALAR : ScalarType.
Variable junk : byte.

(** Lines 176-185.  [value] is the object representation of the
    argument; [*size] is read, [*buffer] is written. *)
Definition serializeToBuffer (heap : gmap nat (list byte))
    (value : list byte) (buffer : option (option nat)) (size : option Z)
  : outcome (bool * option nat * gmap nat (list byte)) :=
  do _ <- CHECK_NOTNULL CHECK_NOTNULL_buffer buffer;
  do size <- CHECK_NOTNULL CHECK_NOTNULL_size size;
  do _ <- CHECK CHECK_EQ_sizeof_size (sizeof SCALAR =? size);
  let '(l, heap) := new_array junk heap size in
  do bytes <- memcpy_from (replicate (Z.to_nat size) junk) 0
                (Some value) size;
  Returns (true, Some l, <[l := bytes]> heap).

(** A [SCALAR*] argument: the address it holds and the object at that
    address. *)
Record pointer : Set := {
  address : Z;
  target : list byte
}.

Definition sizeof_pointer : Z := 8.

(** The state a call of [deSerializeFromBuffer] leaves behind: the
    returned [bool], the object [*value] of the caller, and the bytes of
    the callee's own parameter [value]. *)
Record frame : Set := {
  returned : bool;
  pointee : list byte;
  parameter : list byte
}.

(** Lines 186-192.  The destination of the [memcpy] on line 190 is
    [&value], the address of the parameter, not [value]. *)
Definition deSerializeFromBuffer (buffer : option (list byte)) (size : Z)
    (value : option pointer) : outcome frame :=
  do p <- CHECK_NOTNULL CHECK_NOTNULL_value value;
  do _ <- CHECK CHECK_EQ_sizeof_size (size =? sizeof SCALAR);
  let value_slot := le_bytes (Z.to_nat sizeof_pointer) (address p) in
  do value_slot <- memcpy_from value_slot 0 buffer size;
  Returns {| returned := true;
             pointee := target p;
             parameter := value_slot |}.

End Raw.
End Scalar.

(** ** Vocabulary of the statements *)

(** The header that the Eigen encoders write for [M]. *)
Definition header_of (SCALAR : ScalarType) (M : Matrix) : HeaderInformation :=
  {| rows := m_rows M;
     cols := m_cols M;
     depth := to_uint32 (cv_depth SCALAR);
     channels := 1 |}.

(** [M] can go through the [int] and [size_t] arithmetic of the
    encoders: its dimensions are [int] values and its serialized form is
    addressable. *)
Definition encodable (SCALAR : ScalarType) (c : Header.methods) (M : Matrix)
  : Prop :=
  m_rows M <= INT_MAX /\ m_cols M <= INT_MAX /\
  sizeof SCALAR * (m_rows M * m_cols M) + Header.size c <= SIZE_MAX.

(** [s] is a serialized form of [M]: the bytes some successful header
    write produced, followed by the coefficients. *)
Definition payload (SCALAR : ScalarType) (c : Header.methods) (M : Matrix)
    (s : list byte) : Prop :=
  exists bs bs',
    Header.serializeToBuffer c (header_of SCALAR M) (Some bs) 0
    = Returns (true, bs') /\
    Header.size c <= Z.of_nat (length bs') /\
    s = take (Z.to_nat (Header.size c)) bs' ++ m_data M.

(** The header passes the four checks of lines 115-122 for a destination
    of type [Eigen::Matrix<SCALAR, ROWS, COLS>]. *)
Definition accepted (SCALAR : ScalarType) (ROWS COLS : Z)
    (header : HeaderInformation) : Prop :=
  (ROWS <> Dynamic -> rows header = to_uint32 ROWS) /\
  (COLS <> Dynamic -> cols header = to_uint32 COLS) /\
  depth header = to_uint32 (cv_depth SCALAR) /\
  channels header = 1.

(** The header fails one of them. *)
Definition rejected (SCALAR : ScalarType) (ROWS COLS : Z)
    (header : HeaderInformation) : Prop :=
  (ROWS <> Dynamic /\ rows header <> to_uint32 ROWS) \/
  (COLS <> Dynamic /\ cols header <> to_uint32 COLS) \/
  depth header <> to_uint32 (cv_depth SCALAR) \/
  channels header <> 1.

(** ** Sample inputs *)

(** An implementation of the header functions whose writer and reader
    always report failure. *)
Definition refusing : Header.methods := {|
  Header.size := 16;
  Header.serializeToBuffer := fun _ buffer _ =>
    Returns (false, match buffer with Some bs => bs | None => [] end);
  Header.deSerializeFromBuffer := fun _ _ => Returns None
|}.

(** The 2x1 [int] matrix with coefficients 7 and 9. *)
Definition example_matrix : Matrix :=
  {| m_rows := 2; m_cols := 1; m_data := le_bytes 4 7 ++ le_bytes 4 9 |}.

(** A 2x1 destination holding zeros. *)
Definition zero_matrix : Matrix :=
  {| m_rows := 2; m_cols := 1; m_data := replicate 8 x00 |}.

(** A matrix without coefficients. *)
Definition empty_matrix : Matrix :=
  {| m_rows := 0; m_cols := 0; m_data := [] |}.

(** A matrix with 2^32 + 2 rows and no columns, and the matrix with 2
    rows and no columns. *)
Definition wrapped_matrix : Matrix :=
  {| m_rows := 2 ^ 32 + 2; m_cols := 0; m_data := [] |}.
Definition two_rows : Matrix :=
  {| m_rows := 2; m_cols := 0; m_data := [] |}.

(** A serialized 1x1 [int] image with three channels. *)
Definition three_channels : list byte :=
  Header.spec_fields {| rows := 1; cols := 1; depth := CV_32S;
                        channels := 3 |}
  ++ replicate 12 x00.

(** A serialized 5x2 matrix of [unsigned char]. *)
Definition five_by_two : list byte :=
  Header.spec_fields {| rows := 5; cols := 2; depth := CV_8U;
                        channels := 1 |}
  ++ [x01; x02; x03; x04; x05; x06; x07; x08; x09; x0a].

(** ** Vocabulary of the further properties *)

(** The header that the raw-pointer encoders write for arguments that
    are not negative. *)
Definition raw_header (SCALAR : ScalarType) (rows cols channels : Z)
  : HeaderInformation :=
  {| rows := rows;
     cols := cols;
     depth := to_uint32 (cv_depth SCALAR);
     channels := channels |}.

(** Arguments of the raw-pointer encoders for which their [int] and
    [size_t] arithmetic is exact and [matrixData] holds the bytes that
    are copied. *)
Definition raw_encodable (SCALAR : ScalarType) (c : Header.methods)
    (matrixData : list byte) (rows cols channels : Z) : Prop :=
  0 <= rows <= INT_MAX /\ 0 <= cols <= INT_MAX /\
  0 <= channels <= INT_MAX /\
  sizeof SCALAR * (rows * cols * channels)
    <= Z.of_nat (length matrixData) /\
  sizeof SCALAR * (rows * cols * channels) + Header.size c <= SIZE_MAX.


(** The header reader hands out [uint32_t] fields. *)
Definition reads_uint32 (c : Header.methods) : Prop :=
  forall buffer offset h,
    Header.deSerializeFromBuffer c buffer offset = Returns (Some h) ->
    Header.in_range h.

(** The header has one serialized form: the bytes from which a header
    is read are the bytes that writing it produces. *)
Definition canonical (c : Header.methods) : Prop :=
  forall s h bs bs',
    Header.deSerializeFromBuffer c (Some s) 0 = Returns (Some h) ->
    Header.serializeToBuffer c h (Some bs) 0 = Returns (true, bs') ->
    take (Z.to_nat (Header.size c)) bs' = take (Z.to_nat (Header.size c)) s.

(** A string of blanks ([std::isspace]) only. *)
Fixpoint blank (s : string) : bool :=
  match s with
  | EmptyString => true
  | String a s' => isspace a && blank s'
  end.

(** A string that does not go on with a digit. *)
Definition ends_number (s : string) : bool :=
  match s with
  | EmptyString => true
  | String a _ => match digit_of a with Some _ => false | None => true end
  end.

(** A string that does not start with a number: it is empty, or starts
    with a sign that no digit follows, or with a character that is
    neither a blank, a sign nor a digit. *)
Definition no_number (s : string) : bool :=
  match s with
  | EmptyString => true
  | String a s' =>
      if ((a =? "-") || (a =? "+"))%char then ends_number s'
      else negb (isspace a) && ends_number s
  end.

(** ** Further sample inputs *)

(** [float]: as wide as [int], with another OpenCV tag. *)
Definition scalar_float : ScalarType := {| sizeof := 4; cv_depth := CV_32F |}.

(** One pixel with three [unsigned char] channels, and a byte after it. *)
Definition rgb_pixel : list byte := [x01; x02; x03; xff].

(** A matrix with 2^31 rows and no columns. *)
Definition tall_matrix : Matrix :=
  {| m_rows := 2 ^ 31; m_cols := 0; m_data := [] |}.

(** A 16-byte scalar, as [long double] is on x86-64.  The scalar
    overloads use nothing of it but its size. *)
Definition wide_scalar : ScalarType := {| sizeof := 16; cv_depth := -1 |}.

(** * Properties *)

(** ** Bytes and machine integers *)

Lemma Z_of_byte_of_Z (z : Z) : Z_of_byte (byte_of_Z z) = z mod 256.
Proof.
  unfold byte_of_Z, Z_of_byte.
  assert (Hr : 0 <= z mod 256 < 256) by (apply Z.mod_pos_bound; lia).
  destruct (Byte.of_N (Z.to_N (z mod 256))) as [b|] eqn:E.
  - apply Byte.to_of_N in E. rewrite E. lia.
  - apply Byte.of_N_None_iff in E. lia.
Qed.

Lemma le_value_le_bytes (n : nat) (z : Z) :
  le_value (le_bytes n z) = z mod 256 ^ Z.of_nat n.
Proof.
  revert z. induction n as [|n IH]; intros z.
  - simpl. by rewrite Z.mod_1_r.
  - cbn [le_bytes le_value]. rewrite Z_of_byte_of_Z, IH.
    replace (Z.of_nat (S n)) with (1 + Z.of_nat n) by lia.
    rewrite Z.pow_add_r by lia. rewrite Z.pow_1_r.
    rewrite Z.rem_mul_r by lia. lia.
Qed.

Lemma le_value_le_bytes_4 (z : Z) :
  0 <= z < 2 ^ 32 -> le_value (le_bytes 4 z) = z.
Proof.
  intros Hz. rewrite le_value_le_bytes.
  change (256 ^ Z.of_nat 4) with (2 ^ 32). by apply Z.mod_small.
Qed.

(** ** Outcomes *)

(** The call ends in the check that just failed, one of those listed. *)
Ltac fatal_here :=
  eexists; split; [reflexivity | by repeat constructor].

(** Closed side conditions are settled by evaluation. *)
Ltac evaluate :=
  vm_compute; first [reflexivity | discriminate | congruence].

Lemma bind_Returns {A B} (o : outcome A) (k : A -> outcome B) (b : B) :
  bind o k = Returns b -> exists a, o = Returns a /\ k a = Returns b.
Proof. destruct o; simpl; intros H; try discriminate. eauto. Qed.

Lemma CHECK_true (c : check) (b : bool) : b = true -> CHECK c b = Returns tt.
Proof. by intros ->. Qed.

Lemma CHECK_false (c : check) (b : bool) : b = false -> CHECK c b = Fatal c.
Proof. by intros ->. Qed.


(** ** [memcpy] *)

Lemma memcpy_in_bounds (dst src : list byte) (off n : Z) :
  0 <= off -> 0 <= n -> n <= Z.of_nat (length src) ->
  off + n <= Z.of_nat (length dst) ->
  memcpy dst off src n
  = Returns (take (Z.to_nat off) dst ++ take (Z.to_nat n) src
             ++ drop (Z.to_nat (off + n)) dst).
Proof.
  intros. unfold memcpy. rewrite decide_True; [done | lia].
Qed.

Lemma memcpy_length (dst src : list byte) (off n : Z) (bs : list byte) :
  memcpy dst off src n = Returns bs -> length bs = length dst.
Proof.
  unfold memcpy. case_decide; [|done]. intros [= <-].
  rewrite !length_app, !length_take, length_drop. lia.
Qed.

(** Filling a buffer that ends where the copy ends. *)
Lemma memcpy_tail (dst src : list byte) (off : Z) :
  0 <= off ->
  Z.of_nat (length dst) = off + Z.of_nat (length src) ->
  memcpy dst off src (Z.of_nat (length src))
  = Returns (take (Z.to_nat off) dst ++ src).
Proof.
  intros Hoff Hlen. rewrite memcpy_in_bounds by lia.
  rewrite Nat2Z.id, firstn_all.
  rewrite drop_ge by lia. by rewrite app_nil_r.
Qed.

(** ** The header layout of the spec is lawful *)

Lemma length_spec_fields (h : HeaderInformation) :
  length (Header.spec_fields h) = 16%nat.
Proof. reflexivity. Qed.

Lemma spec_write_0 (h : HeaderInformation) (bs : list byte) :
  Header.spec_size <= Z.of_nat (length bs) ->
  Header.spec_serializeToBuffer h (Some bs) 0
  = Returns (true, Header.spec_fields h ++ drop 16 bs).
Proof.
  intros Hlen. unfold Header.spec_serializeToBuffer.
  rewrite memcpy_in_bounds.
  - reflexivity.
  - lia.
  - by compute.
  - by compute.
  - simpl. lia.
Qed.

Lemma spec_read_fields (h : HeaderInformation) (tail : list byte) :
  Header.in_range h ->
  Header.spec_deSerializeFromBuffer (Some (Header.spec_fields h ++ tail)) 0
  = Returns (Some h).
Proof.
  intros (Hr & Hc & Hd & Hch). unfold Header.spec_deSerializeFromBuffer.
  rewrite decide_True.
  2:{ rewrite length_app, length_spec_fields. unfold Header.spec_size. lia. }
  do 2 f_equal. destruct h as [r c d ch]. simpl in *.
  unfold slice, Header.spec_fields. cbn [rows cols depth channels].
  pose proof (le_value_le_bytes_4 r Hr) as Er.
  pose proof (le_value_le_bytes_4 c Hc) as Ec.
  pose proof (le_value_le_bytes_4 d Hd) as Ed.
  pose proof (le_value_le_bytes_4 ch Hch) as Ech.
  cbn [le_bytes le_value] in Er, Ec, Ed, Ech.
  cbn -[byte_of_Z Z_of_byte Z.div Z.mul Z.add].
  by rewrite Er, Ec, Ed, Ech.
Qed.

Lemma spec_lawful : Header.lawful Header.spec.
Proof.
  split.
  - by compute.
  - intros h bs off ok bs'. unfold Header.spec.
    cbn [Header.serializeToBuffer]. unfold Header.spec_serializeToBuffer.
    intros H. apply bind_Returns in H as (b & Hm & [= _ <-]).
    by apply memcpy_length in Hm.
  - intros h bs Hlen. unfold Header.spec in *.
    cbn [Header.serializeToBuffer Header.size] in *.
    eexists. by apply spec_write_0.
  - intros h bs bs' tail Hr. unfold Header.spec.
    cbn [Header.serializeToBuffer Header.deSerializeFromBuffer Header.size].
    intros H.
    assert (Hlen : Header.spec_size <= Z.of_nat (length bs)).
    { unfold Header.spec_serializeToBuffer in H.
      apply bind_Returns in H as (b & Hm & _).
      unfold memcpy in Hm. case_decide; [lia | done]. }
    rewrite spec_write_0 in H by done.
    assert (E : bs' = Header.spec_fields h ++ drop 16 bs) by congruence.
    subst bs'. clear H.
    change (Z.to_nat Header.spec_size) with 16%nat.
    rewrite take_app_length' by reflexivity.
    by apply spec_read_fields.
Qed.

Lemma to_uint32_small (z : Z) : 0 <= z < 2 ^ 32 -> to_uint32 z = z.
Proof. intros. by apply Z.mod_small. Qed.

Lemma to_uint32_range (z : Z) : 0 <= to_uint32 z < 2 ^ 32.
Proof. apply Z.mod_pos_bound. lia. Qed.

Lemma to_size_t_small (z : Z) : 0 <= z < 2 ^ 64 -> to_size_t z = z.
Proof. intros. by apply Z.mod_small. Qed.

Lemma to_int_small (z : Z) : - 2 ^ 31 <= z < 2 ^ 31 -> to_int z = z.
Proof. intros. unfold to_int. rewrite Z.mod_small; lia. Qed.

Lemma matrixSize_of_eq (S : ScalarType) (r c ch : Z) :
  Raw.matrixSize_of S r c ch = to_size_t (sizeof S * r * c * ch).
Proof.
  unfold Raw.matrixSize_of, mul_size_t, to_size_t.
  repeat (rewrite Zmult_mod_idemp_r || rewrite Zmult_mod_idemp_l).
  rewrite <- (Z.mul_assoc (_ mod _)), Zmult_mod_idemp_l.
  by rewrite Z.mul_assoc.
Qed.

Lemma mul_size_t_3 (a b k : Z) :
  mul_size_t (mul_size_t a (to_size_t b)) (to_size_t k)
  = to_size_t (a * (b * k)).
Proof.
  unfold mul_size_t, to_size_t.
  rewrite Zmult_mod_idemp_r, Zmult_mod_idemp_l.
  rewrite (Z.mul_comm a (b mod _)), <- Z.mul_assoc, Zmult_mod_idemp_l.
  f_equal. lia.
Qed.

(** A lawful header has at least one byte. *)
Lemma lawful_size_pos (c : Header.methods) :
  Header.lawful c -> 0 < Header.size c.
Proof.
  intros L. destruct (decide (0 < Header.size c)) as [|Hn]; [done|].
  pose proof (Header.size_range c L) as Hs.
  assert (E : Header.size c = 0) by lia.
  set (h1 := {| rows := 0; cols := 0; depth := 0; channels := 0 |}).
  set (h2 := {| rows := 1; cols := 0; depth := 0; channels := 0 |}).
  destruct (Header.write_total c L h1 []) as [b1 W1]; [simpl; lia|].
  destruct (Header.write_total c L h2 []) as [b2 W2]; [simpl; lia|].
  assert (R1 := Header.read_write c L h1 [] b1 [] ltac:(by compute) W1).
  assert (R2 := Header.read_write c L h2 [] b2 [] ltac:(by compute) W2).
  rewrite E in R1, R2. simpl in R1, R2. subst h1 h2.
  rewrite R1 in R2. discriminate R2.
Qed.

Section MatrixCodec.

Variable SCALAR : ScalarType.
Variables ROWS COLS : Z.
Variable c : Header.methods.
Variable junk : byte.
Hypothesis c_lawful : Header.lawful c.
Hypothesis sizeof_nonneg : 0 <= sizeof SCALAR.

Lemma header_of_in_range (M : Matrix) :
  0 <= m_rows M <= INT_MAX -> 0 <= m_cols M <= INT_MAX ->
  Header.in_range (header_of SCALAR M).
Proof.
  unfold INT_MAX, Header.in_range, header_of. simpl. intros.
  pose proof (to_uint32_range (cv_depth SCALAR)). lia.
Qed.

Lemma makeHeaderInformation_matrix (M : Matrix) :
  0 <= m_rows M <= INT_MAX -> 0 <= m_cols M <= INT_MAX ->
  Raw.makeHeaderInformation SCALAR (to_int (m_rows M)) (to_int (m_cols M)) 1
    (Some (Raw.uninitialized junk))
  = Returns (header_of SCALAR M).
Proof.
  unfold INT_MAX. intros Hr Hc. unfold Raw.makeHeaderInformation, header_of.
  simpl. rewrite !to_int_small by lia. rewrite !to_uint32_small by lia.
  reflexivity.
Qed.

Lemma matrixSize_of_matrix (M : Matrix) :
  has_type SCALAR ROWS COLS M -> encodable SCALAR c M ->
  Raw.matrixSize_of SCALAR (to_int (m_rows M)) (to_int (m_cols M)) 1
  = Z.of_nat (length (m_data M)).
Proof.
  intros (Hr & Hc & _ & _ & Hlen) (Hri & Hci & Hfit).
  unfold INT_MAX, SIZE_MAX in *.
  pose proof (Header.size_range c c_lawful).
  rewrite matrixSize_of_eq, !to_int_small by lia.
  rewrite Hlen. rewrite to_size_t_small; lia.
Qed.

Lemma length_string_resize (s : list byte) (n : Z) :
  0 <= n -> Z.of_nat (length (string_resize s n)) = n.
Proof.
  intros. unfold string_resize.
  rewrite length_app, length_take, length_replicate. lia.
Qed.

Lemma serializeToString_payload (M : Matrix) (s0 : list byte) :
  has_type SCALAR ROWS COLS M -> encodable SCALAR c M ->
  exists s,
    Eigen.serializeToString SCALAR c junk M (Some s0) = Returns (true, s) /\
    payload SCALAR c M s.
Proof.
  intros HM HE.
  pose proof (matrixSize_of_matrix M HM HE) as Hsize.
  destruct HM as (Hr & Hc & _ & _ & Hlen), HE as (Hri & Hci & Hfit).
  pose proof (Header.size_range c c_lawful) as Hs.
  pose proof (lawful_size_pos c c_lawful) as Hpos.
  unfold Eigen.serializeToString, Raw.serializeToString.
  rewrite !to_int_small by (unfold INT_MAX in *; lia).
  rewrite (CHECK_true _ _ (proj2 (Z.leb_le _ _) Hr)).
  rewrite (CHECK_true _ _ (proj2 (Z.leb_le _ _) Hc)).
  cbn [bind CHECK_NOTNULL].
  rewrite <- (to_int_small (m_rows M)) by (unfold INT_MAX in *; lia).
  rewrite <- (to_int_small (m_cols M)) by (unfold INT_MAX in *; lia).
  rewrite makeHeaderInformation_matrix by lia.
  rewrite Hsize. cbn [bind].
  set (total := add_size_t _ _).
  assert (Htotal : total = Z.of_nat (length (m_data M)) + Header.size c).
  { unfold total, add_size_t. apply to_size_t_small.
    unfold SIZE_MAX in *. lia. }
  rewrite (CHECK_true _ (0 <? total)) by (apply Z.ltb_lt; lia).
  cbn [bind].
  destruct (Header.write_total c c_lawful (header_of SCALAR M)
              (string_resize s0 total)) as [bs' W].
  { rewrite length_string_resize; lia. }
  rewrite W. cbn [bind negb].
  pose proof (Header.write_length c c_lawful _ _ _ _ _ W) as Hlen'.
  assert (Hbs' : Z.of_nat (length bs') = total).
  { rewrite Hlen'. apply length_string_resize. lia. }
  rewrite memcpy_tail by lia. cbn [bind].
  eexists. split; [reflexivity|].
  exists (string_resize s0 total), bs'. repeat split; [done | lia].
Qed.

Lemma serializeToBuffer_payload (heap : gmap nat (list byte)) (M : Matrix)
    (p0 : option nat) (n0 : Z) :
  has_type SCALAR ROWS COLS M -> encodable SCALAR c M ->
  exists l s heap',
    Eigen.serializeToBuffer SCALAR c junk heap M (Some p0) (Some n0)
    = Returns {| Raw.success := true; Raw.buffer_out := Some l;
                 Raw.totalSize_out := Z.of_nat (length s);
                 Raw.heap_out := heap' |} /\
    heap !! l = None /\ heap' = <[l := s]> heap /\
    payload SCALAR c M s.
Proof.
  intros HM HE.
  pose proof (matrixSize_of_matrix M HM HE) as Hsize.
  destruct HM as (Hr & Hc & _ & _ & Hlen), HE as (Hri & Hci & Hfit).
  pose proof (Header.size_range c c_lawful) as Hs.
  unfold Eigen.serializeToBuffer, Raw.serializeToBuffer.
  cbn [bind CHECK_NOTNULL].
  rewrite makeHeaderInformation_matrix by lia.
  rewrite Hsize. cbn [bind].
  set (total := add_size_t _ _).
  assert (Htotal : total = Z.of_nat (length (m_data M)) + Header.size c).
  { unfold total, add_size_t. apply to_size_t_small.
    unfold SIZE_MAX in *. lia. }
  unfold new_array. set (l := fresh (dom heap)).
  assert (Hfresh : heap !! l = None).
  { apply not_elem_of_dom. apply is_fresh. }
  rewrite lookup_insert_eq.
  destruct (Header.write_total c c_lawful (header_of SCALAR M)
              (replicate (Z.to_nat total) junk)) as [bs' W].
  { rewrite length_replicate. lia. }
  rewrite W. cbn [bind negb].
  pose proof (Header.write_length c c_lawful _ _ _ _ _ W) as Hlen'.
  rewrite length_replicate in Hlen'.
  rewrite memcpy_tail by lia. cbn [bind].
  set (s := take _ bs' ++ m_data M).
  assert (Hs_len : Z.of_nat (length s) = total).
  { unfold s. rewrite length_app, length_take. lia. }
  exists l, s, (<[l := s]> heap). rewrite Hs_len, !insert_insert_eq.
  repeat split; try done.
  exists (replicate (Z.to_nat total) junk), bs'. repeat split; [done | lia].
Qed.

(** Shape and storage after lines 124-130. *)
Lemma resize_dynamic_rows (h : HeaderInformation) (dst : Matrix) :
  m_rows (Eigen.resize_dynamic SCALAR ROWS COLS junk h dst)
  = if ROWS =? Dynamic then rows h else m_rows dst.
Proof.
  unfold Eigen.resize_dynamic.
  destruct (ROWS =? Dynamic), (COLS =? Dynamic); reflexivity.
Qed.

Lemma resize_dynamic_cols (h : HeaderInformation) (dst : Matrix) :
  m_cols (Eigen.resize_dynamic SCALAR ROWS COLS junk h dst)
  = if COLS =? Dynamic then cols h else m_cols dst.
Proof.
  unfold Eigen.resize_dynamic.
  destruct (ROWS =? Dynamic), (COLS =? Dynamic); reflexivity.
Qed.

Lemma resize_length (m : Matrix) (r k : Z) :
  0 <= r -> 0 <= k ->
  Z.of_nat (length (m_data m)) = sizeof SCALAR * (m_rows m * m_cols m) ->
  Z.of_nat (length (m_data (Eigen.resize SCALAR junk m r k)))
  = sizeof SCALAR * (r * k).
Proof.
  intros Hr Hk Hlen. unfold Eigen.resize. cbn [m_data].
  case_decide as E.
  - by rewrite E.
  - rewrite length_replicate. nia.
Qed.

Lemma resize_dynamic_length (h : HeaderInformation) (dst : Matrix) :
  0 <= rows h -> 0 <= cols h ->
  has_type SCALAR ROWS COLS dst ->
  let m := Eigen.resize_dynamic SCALAR ROWS COLS junk h dst in
  Z.of_nat (length (m_data m)) = sizeof SCALAR * (m_rows m * m_cols m).
Proof.
  intros Hr Hc (Hdr & Hdc & _ & _ & Hlen). cbn zeta.
  unfold Eigen.resize_dynamic.
  destruct (ROWS =? Dynamic), (COLS =? Dynamic); cbn [andb negb];
    try (rewrite resize_length by done; reflexivity).
  exact Hlen.
Qed.

End MatrixCodec.

Section MatrixDecode.

Variable SCALAR : ScalarType.
Variables ROWS COLS : Z.
Variable c : Header.methods.
Variable junk : byte.


(** The decoder once the header is read and accepted: lines 124-136. *)
Lemma decode_accepted (buffer : option (list byte)) (size : Z)
    (dst : Matrix) (header : HeaderInformation) :
  Header.size c <= size ->
  Header.deSerializeFromBuffer c buffer 0 = Returns (Some header) ->
  accepted SCALAR ROWS COLS header ->
  Eigen.deSerializeFromBuffer SCALAR ROWS COLS c junk buffer size (Some dst)
  = let m := Eigen.resize_dynamic SCALAR ROWS COLS junk header dst in
    let matrix_size :=
      mul_size_t (mul_size_t (sizeof SCALAR) (to_size_t (m_rows m)))
                 (to_size_t (m_cols m)) in
    do _ <- CHECK CHECK_EQ_size_total_size
              (size =? add_size_t matrix_size (Header.size c));
    do data <- memcpy_from (m_data m) 0
                 (ptr_add buffer (Header.size c)) matrix_size;
    Returns (true, {| m_rows := m_rows m; m_cols := m_cols m;
                      m_data := data |}).
Proof.
  intros Hsize Hread (HR & HC & HD & HCh).
  unfold Eigen.deSerializeFromBuffer. cbn [bind CHECK_NOTNULL].
  rewrite CHECK_true by (by apply Z.leb_le). cbn [bind].
  rewrite Hread. cbn [bind].
  rewrite (CHECK_true CHECK_EQ_header_rows).
  2:{ destruct (ROWS =? Dynamic) eqn:E; [done|]. cbn [negb].
      apply Z.eqb_neq in E. apply Z.eqb_eq. by apply HR. }
  rewrite (CHECK_true CHECK_EQ_header_cols).
  2:{ destruct (COLS =? Dynamic) eqn:E; [done|]. cbn [negb].
      apply Z.eqb_neq in E. apply Z.eqb_eq. by apply HC. }
  rewrite (CHECK_true CHECK_EQ_header_depth) by (by apply Z.eqb_eq).
  rewrite (CHECK_true CHECK_EQ_header_channels) by (by apply Z.eqb_eq).
  reflexivity.
Qed.

End MatrixDecode.

Section MatrixRoundTrip.

Variable SCALAR : ScalarType.
Variables ROWS COLS : Z.
Variable c : Header.methods.
Variable junk : byte.
Hypothesis c_lawful : Header.lawful c.
Hypothesis sizeof_nonneg : 0 <= sizeof SCALAR.

Lemma header_of_accepted (M : Matrix) :
  has_type SCALAR ROWS COLS M -> encodable SCALAR c M ->
  accepted SCALAR ROWS COLS (header_of SCALAR M).
Proof.
  intros (Hr & Hc & HR & HC & _) (Hri & Hci & _). unfold INT_MAX in *.
  repeat split; cbn [header_of rows cols depth channels].
  - intros E. rewrite <- HR by done. rewrite to_uint32_small; lia.
  - intros E. rewrite <- HC by done. rewrite to_uint32_small; lia.
Qed.

(** Decoding bytes that start with the header of [M]: what is left is
    the size check and the copy. *)
Lemma decode_header_of (M dst : Matrix) (bs bs' tail : list byte)
    (size : Z) :
  has_type SCALAR ROWS COLS M -> encodable SCALAR c M ->
  has_type SCALAR ROWS COLS dst ->
  Header.serializeToBuffer c (header_of SCALAR M) (Some bs) 0
  = Returns (true, bs') ->
  Header.size c <= Z.of_nat (length bs') ->
  Header.size c <= size ->
  exists storage,
    Z.of_nat (length storage) = Z.of_nat (length (m_data M)) /\
    Eigen.deSerializeFromBuffer SCALAR ROWS COLS c junk
      (Some (take (Z.to_nat (Header.size c)) bs' ++ tail)) size (Some dst)
    = do _ <- CHECK CHECK_EQ_size_total_size
                (size =? Z.of_nat (length (m_data M)) + Header.size c);
      do data <- memcpy storage 0 tail (Z.of_nat (length (m_data M)));
      Returns (true, {| m_rows := m_rows M; m_cols := m_cols M;
                        m_data := data |}).
Proof.
  intros HM HE Hdst W Hbs' Hsize.
  pose proof (header_of_accepted M HM HE) as Hacc.
  pose proof (resize_dynamic_length SCALAR ROWS COLS junk sizeof_nonneg
                (header_of SCALAR M) dst) as Hres.
  pose proof (resize_dynamic_rows SCALAR ROWS COLS junk
                (header_of SCALAR M) dst) as Hrows.
  pose proof (resize_dynamic_cols SCALAR ROWS COLS junk
                (header_of SCALAR M) dst) as Hcols.
  destruct HM as (Hr & Hc & HR & HC & Hlen), HE as (Hri & Hci & Hfit).
  pose proof (Header.size_range c c_lawful) as Hs.
  assert (Hin : Header.in_range (header_of SCALAR M))
    by (apply header_of_in_range; lia).
  specialize (Hres Hr Hc Hdst). cbn zeta in Hres.
  assert (Hhead : length (take (Z.to_nat (Header.size c)) bs')
                  = Z.to_nat (Header.size c)).
  { rewrite length_take. lia. }
  rewrite (decode_accepted SCALAR ROWS COLS c junk _ _ _ _ Hsize
             (Header.read_write c c_lawful _ _ _ _ Hin W) Hacc).
  cbn zeta.
  set (m := Eigen.resize_dynamic _ _ _ _ _ _) in *.
  assert (Em_rows : m_rows m = m_rows M).
  { rewrite Hrows. cbn [header_of rows].
    destruct (ROWS =? Dynamic) eqn:E; [done|].
    apply Z.eqb_neq in E. destruct Hdst as (_ & _ & HdR & _).
    by rewrite HdR, HR. }
  assert (Em_cols : m_cols m = m_cols M).
  { rewrite Hcols. cbn [header_of cols].
    destruct (COLS =? Dynamic) eqn:E; [done|].
    apply Z.eqb_neq in E. destruct Hdst as (_ & _ & _ & HdC & _).
    by rewrite HdC, HC. }
  rewrite Em_rows, Em_cols in *.
  rewrite mul_size_t_3, <- Hlen.
  rewrite (to_size_t_small (Z.of_nat _)) by (unfold SIZE_MAX in *; lia).
  unfold add_size_t.
  rewrite to_size_t_small by (unfold SIZE_MAX in *; lia).
  exists (m_data m). split; [lia|].
  cbn [ptr_add fmap option_fmap option_map memcpy_from].
  by rewrite drop_app_length'.
Qed.

Lemma deSerializeFromBuffer_payload (M dst : Matrix) (s : list byte) :
  has_type SCALAR ROWS COLS M -> encodable SCALAR c M ->
  has_type SCALAR ROWS COLS dst ->
  payload SCALAR c M s ->
  Eigen.deSerializeFromBuffer SCALAR ROWS COLS c junk
    (Some s) (Z.of_nat (length s)) (Some dst)
  = Returns (true, M).
Proof.
  intros HM HE Hdst (bs & bs' & W & Hbs' & ->).
  pose proof (Header.size_range c c_lawful) as Hs.
  assert (Hhead : length (take (Z.to_nat (Header.size c)) bs')
                  = Z.to_nat (Header.size c)).
  { rewrite length_take. lia. }
  destruct (decode_header_of M dst bs bs' (m_data M)
              (Z.of_nat (length (take (Z.to_nat (Header.size c)) bs'
                                 ++ m_data M)))
              HM HE Hdst W Hbs') as (storage & Hst & ->).
  { rewrite length_app, Hhead. lia. }
  rewrite CHECK_true by (apply Z.eqb_eq; rewrite length_app, Hhead; lia).
  cbn [bind]. rewrite memcpy_in_bounds by lia. cbn [bind].
  rewrite Nat2Z.id, firstn_all.
  change (Z.to_nat 0) with 0%nat. rewrite take_0.
  rewrite drop_ge by lia. rewrite app_nil_r. cbn [app].
  by destruct M.
Qed.

Lemma length_removelast (l : list byte) :
  length (removelast l) = pred (length l).
Proof. rewrite removelast_firstn_len, length_take. lia. Qed.

(** One byte less than a serialized form never decodes. *)
Lemma deSerializeFromBuffer_truncated (M dst : Matrix) (s : list byte) :
  has_type SCALAR ROWS COLS M -> encodable SCALAR c M ->
  has_type SCALAR ROWS COLS dst ->
  payload SCALAR c M s ->
  Eigen.deSerializeFromBuffer SCALAR ROWS COLS c junk
    (Some (removelast s)) (Z.of_nat (length (removelast s))) (Some dst)
  = Fatal (match m_data M with
           | [] => CHECK_GE_size_header_size
           | _ :: _ => CHECK_EQ_size_total_size
           end).
Proof.
  intros HM HE Hdst (bs & bs' & W & Hbs' & ->).
  pose proof (Header.size_range c c_lawful) as Hs.
  pose proof (lawful_size_pos c c_lawful) as Hpos.
  assert (Hhead : length (take (Z.to_nat (Header.size c)) bs')
                  = Z.to_nat (Header.size c)).
  { rewrite length_take. lia. }
  destruct (m_data M) as [|b data] eqn:Edata.
  - rewrite app_nil_r.
    unfold Eigen.deSerializeFromBuffer. cbn [bind CHECK_NOTNULL].
    rewrite CHECK_false; [done|].
    apply Z.leb_gt.
    rewrite length_removelast, Hhead.
    lia.
  - rewrite removelast_app by done.
    rewrite <- Edata in *.
    pose proof (length_removelast (m_data M)) as Hrl.
    assert (Hne : (0 < length (m_data M))%nat)
      by (rewrite Edata; cbn [length]; lia).
    destruct (decode_header_of M dst bs bs' (removelast (m_data M))
                (Z.of_nat (length (take (Z.to_nat (Header.size c)) bs'
                                   ++ removelast (m_data M))))
                HM HE Hdst W Hbs') as (storage & Hst & ->).
    { rewrite length_app, Hhead. lia. }
    rewrite CHECK_false; [done|].
    apply Z.eqb_neq. rewrite length_app, Hhead. lia.
Qed.

End MatrixRoundTrip.

(** ** Decimal text *)

Lemma digit_of_char (k : Z) (a : ascii) :
  digit_of a = Some k ->
  isspace a = false /\ (a =? "-")%char = false /\ (a =? "+")%char = false
  /\ 0 <= k <= 9.
Proof.
  unfold digit_of, isspace. intros H.
  destruct (48 <=? Z.of_N (N_of_ascii a)) eqn:E1; [|done].
  destruct (Z.of_N (N_of_ascii a) <=? 57) eqn:E2; [|done].
  injection H as <-. apply Z.leb_le in E1, E2.
  repeat split; try lia.
  - destruct (N.eqb_spec (N_of_ascii a) 32); [lia|].
    destruct (N.leb_spec 9 (N_of_ascii a)), (N.leb_spec (N_of_ascii a) 13);
      simpl; try done; lia.
  - apply Ascii.eqb_neq. intros ->. vm_compute in E1. done.
  - apply Ascii.eqb_neq. intros ->. vm_compute in E1. done.
Qed.



Lemma digits_None (s : string) (a : ascii) (k : Z) :
  digit_of a = Some k ->
  digits None (String a s) = digits (Some 0) (String a s).
Proof. intros H. cbn [digits]. by rewrite H. Qed.

Lemma string_of_uint_head (d : Decimal.uint) :
  d <> Decimal.Nil ->
  exists a s k, NilEmpty.string_of_uint d = String a s /\ digit_of a = Some k.
Proof.
  destruct d; [done | ..]; intros _; cbn [NilEmpty.string_of_uint];
    do 3 eexists; (split; [reflexivity | vm_compute; reflexivity]).
Qed.


(** ** The raw scalar decoder *)

(** Whatever it is given, a call that returns has not touched the scalar
    behind [value]. *)
Lemma scalar_decode_keeps_target (SCALAR : ScalarType)
    (buffer : option (list byte)) (size : Z) (p : Scalar.pointer)
    (f : Scalar.frame) :
  Scalar.deSerializeFromBuffer SCALAR buffer size (Some p) = Returns f ->
  Scalar.returned f = true /\ Scalar.pointee f = Scalar.target p.
Proof.
  unfold Scalar.deSerializeFromBuffer. cbn [bind CHECK_NOTNULL].
  intros H.
  apply bind_Returns in H as (_ & _ & H).
  apply bind_Returns in H as (slot & _ & H).
  by injection H as <-.
Qed.

(** * The claims *)

(** C1, with its bound.  Round trip of a matrix.  Let [M] be a matrix
    whose shape fits a destination of type
    [Eigen::Matrix<SCALAR, ROWS, COLS>], whose dimensions fit the [int]
    parameters of the encoder and whose serialized form fits a
    [size_t].  Then [serializeToString] followed
    by [deSerializeFromString], and [serializeToBuffer] followed by
    [deSerializeFromBuffer] on the returned buffer and size, both succeed
    and leave exactly [M], shape and coefficient bytes, in the
    destination. *)
Theorem matrix_round_trip (SCALAR : ScalarType) (ROWS COLS : Z)
    (c : Header.methods) (junk : byte) (M dst : Matrix) (s0 : list byte)
    (heap : gmap nat (list byte)) (p0 : option nat) (n0 : Z) :
  Header.lawful c ->
  0 <= sizeof SCALAR ->
  has_type SCALAR ROWS COLS M ->
  encodable SCALAR c M ->
  has_type SCALAR ROWS COLS dst ->
  (exists s,
     Eigen.serializeToString SCALAR c junk M (Some s0) = Returns (true, s) /\
     Eigen.deSerializeFromString SCALAR ROWS COLS c junk s (Some dst)
     = Returns (true, M))
  /\
  (exists l s heap',
     Eigen.serializeToBuffer SCALAR c junk heap M (Some p0) (Some n0)
     = Returns {| Raw.success := true; Raw.buffer_out := Some l;
                  Raw.totalSize_out := Z.of_nat (length s);
                  Raw.heap_out := heap' |} /\
     heap' !! l = Some s /\
     Eigen.deSerializeFromBuffer SCALAR ROWS COLS c junk
       (heap' !! l) (Z.of_nat (length s)) (Some dst)
     = Returns (true, M)).
Proof.
  intros L Hsz HM HE Hdst. split.
  - destruct (serializeToString_payload SCALAR ROWS COLS c junk L Hsz
                M s0 HM HE) as (s & Henc & Hpay).
    exists s. split; [done|].
    unfold Eigen.deSerializeFromString. cbn [bind CHECK_NOTNULL].
    by apply deSerializeFromBuffer_payload.
  - destruct (serializeToBuffer_payload SCALAR ROWS COLS c junk L Hsz
                heap M p0 n0 HM HE) as (l & s & heap' & Henc & _ & -> & Hpay).
    exists l, s, (<[l := s]> heap). rewrite lookup_insert_eq.
    repeat split; [done|].
    by apply deSerializeFromBuffer_payload.
Qed.

Lemma matrix_round_trip_witness :
  (exists s,
     Eigen.serializeToString scalar_int Header.spec x00 example_matrix
       (Some []) = Returns (true, s) /\
     Eigen.deSerializeFromString scalar_int 2 Dynamic Header.spec x00 s
       (Some zero_matrix) = Returns (true, example_matrix))
  /\
  (exists l s heap',
     Eigen.serializeToBuffer scalar_int Header.spec x00 ∅ example_matrix
       (Some None) (Some 0)
     = Returns {| Raw.success := true; Raw.buffer_out := Some l;
                  Raw.totalSize_out := Z.of_nat (length s);
                  Raw.heap_out := heap' |} /\
     heap' !! l = Some s /\
     Eigen.deSerializeFromBuffer scalar_int 2 Dynamic Header.spec x00
       (heap' !! l) (Z.of_nat (length s)) (Some zero_matrix)
     = Returns (true, example_matrix)).
Proof.
  apply (matrix_round_trip scalar_int 2 Dynamic Header.spec x00
           example_matrix zero_matrix [] ∅ None 0 spec_lawful).
  - evaluate.
  - repeat split; evaluate.
  - repeat split; evaluate.
  - repeat split; evaluate.
Defined.

(** C1, as the claim has it, fails for dimensions beyond [int].  Both
    matrices below fit a fully dynamic destination.  The one with 2^31
    rows is not serialized to a string at all: its row count arrives as
    a negative [int] and the sign check aborts.  The one with 2^32 + 2
    rows goes through the buffer encoder and the decoder, both return
    [true], and what comes back has 2 rows. *)
Lemma matrix_round_trip_beyond_int :
  has_type scalar_int Dynamic Dynamic tall_matrix /\
  Eigen.serializeToString scalar_int Header.spec x00 tall_matrix (Some [])
  = Fatal CHECK_GE_rows_0 /\
  has_type scalar_int Dynamic Dynamic wrapped_matrix /\
  (exists l s heap',
     Eigen.serializeToBuffer scalar_int Header.spec x00 ∅ wrapped_matrix
       (Some None) (Some 0)
     = Returns {| Raw.success := true; Raw.buffer_out := Some l;
                  Raw.totalSize_out := Z.of_nat (length s);
                  Raw.heap_out := heap' |} /\
     heap' !! l = Some s /\
     Eigen.deSerializeFromBuffer scalar_int Dynamic Dynamic Header.spec
       x00 (heap' !! l) (Z.of_nat (length s)) (Some empty_matrix)
     = Returns (true, two_rows)) /\
  two_rows <> wrapped_matrix.
Proof.
  split; [repeat split; evaluate|]. split; [reflexivity|].
  split; [repeat split; evaluate|]. split; [|discriminate].
  exists 0%nat,
    (Header.spec_fields {| rows := 2; cols := 0; depth := CV_32S;
                           channels := 1 |}),
    {[ 0%nat := Header.spec_fields {| rows := 2; cols := 0;
                                      depth := CV_32S; channels := 1 |} ]}.
  split; [reflexivity|]. split; [reflexivity|]. by vm_compute.
Qed.

(** C2.  Raw round trip of the 4-byte integer 42.  The encoder returns a
    fresh 4-byte buffer holding the bytes of 42.  The decoder accepts
    that buffer and returns [true], but its [memcpy] writes to the
    parameter [value] itself ([&value] on line 190), so the caller's
    scalar keeps the value it had: decoding into a scalar that holds 0
    leaves 0 there, not 42. *)
Theorem scalar_raw_round_trip_42 (address : Z) :
  exists l heap,
    Scalar.serializeToBuffer scalar_int x00 ∅ (object_bytes int32_t 42)
      (Some None) (Some 4)
    = Returns (true, Some l, heap) /\
    heap !! l = Some (object_bytes int32_t 42) /\
    Scalar.deSerializeFromBuffer scalar_int (heap !! l) 4
      (Some {| Scalar.address := address;
               Scalar.target := object_bytes int32_t 0 |})
    = Returns {| Scalar.returned := true;
                 Scalar.pointee := object_bytes int32_t 0;
                 Scalar.parameter :=
                   object_bytes int32_t 42
                   ++ drop 4 (le_bytes 8 address) |} /\
    object_value int32_t (object_bytes int32_t 0) = 0 /\
    object_value int32_t (object_bytes int32_t 0) <> 42.
Proof.
  exists 0%nat, {[ 0%nat := object_bytes int32_t 42 ]}.
  split; [reflexivity|]. split; [reflexivity|].
  split; [|split; [reflexivity | by vm_compute]].
  rewrite lookup_singleton_eq.
  unfold Scalar.deSerializeFromBuffer. cbn [bind CHECK_NOTNULL].
  rewrite CHECK_true by reflexivity. cbn [bind memcpy_from].
  rewrite memcpy_in_bounds;
    [reflexivity | done | done | by vm_compute | by vm_compute].
Qed.

(** The sign checks of the raw-pointer encoders.  The string encoder
    checks [rows >= 0] and [cols >= 0] before anything else (lines
    39-40) and aborts when either is negative, whatever the other
    arguments are.  With no rows, every [channels], negative ones
    included, is serialized successfully to a string and to a buffer. *)
Lemma raw_encode_sign_checks (SCALAR : ScalarType) (junk : byte) :
  (forall (c : Header.methods) (matrixData : list byte)
          (rows cols channels : Z) (string : option (list byte)),
     rows < 0 \/ cols < 0 ->
     Raw.serializeToString SCALAR c junk matrixData rows cols channels
       string
     = Fatal (if rows <? 0 then CHECK_GE_rows_0 else CHECK_GE_cols_0))
  /\
  (forall (matrixData s0 : list byte) (cols channels : Z)
          (heap : gmap nat (list byte)) (p0 : option nat) (n0 : Z),
     0 <= cols ->
     (exists s,
        Raw.serializeToString SCALAR Header.spec junk matrixData
          0 cols channels (Some s0) = Returns (true, s)) /\
     (exists l heap',
        Raw.serializeToBuffer SCALAR Header.spec junk heap matrixData
          0 cols channels (Some p0) (Some n0)
        = Returns {| Raw.success := true; Raw.buffer_out := Some l;
                     Raw.totalSize_out := 16; Raw.heap_out := heap' |})).
Proof.
  split.
  - intros c matrixData rows cols channels string Hneg.
    unfold Raw.serializeToString.
    destruct (Z.ltb_spec rows 0) as [Hr|Hr].
    + by rewrite CHECK_false by (apply Z.leb_gt; lia).
    + rewrite CHECK_true by (apply Z.leb_le; lia). cbn [bind].
      by rewrite CHECK_false by (apply Z.leb_gt; lia).
  - intros matrixData s0 cols channels heap p0 n0 Hcols.
    assert (Esize : Raw.matrixSize_of SCALAR 0 cols channels = 0).
    { rewrite matrixSize_of_eq. by rewrite Z.mul_0_r. }
    split.
    + unfold Raw.serializeToString.
      rewrite (CHECK_true CHECK_GE_cols_0) by (by apply Z.leb_le).
      cbn [bind CHECK CHECK_NOTNULL Z.leb Z.compare
           Raw.makeHeaderInformation].
      rewrite Esize.
      change (add_size_t 0 (Header.size Header.spec)) with 16.
      cbn [bind CHECK Z.ltb Z.compare].
      cbn [Header.serializeToBuffer Header.spec Header.size].
      rewrite spec_write_0
        by (rewrite length_string_resize; by vm_compute).
      cbn [bind negb]. rewrite memcpy_in_bounds.
      * eexists. reflexivity.
      * by vm_compute.
      * done.
      * lia.
      * rewrite length_app, length_spec_fields, length_drop.
        pose proof (length_string_resize s0 16 ltac:(done)).
        change Header.spec_size with 16. lia.
    + unfold Raw.serializeToBuffer.
      cbn [bind CHECK_NOTNULL Raw.makeHeaderInformation].
      rewrite Esize.
      change (add_size_t 0 (Header.size Header.spec)) with 16.
      unfold new_array. rewrite lookup_insert_eq.
      cbn [Header.serializeToBuffer Header.spec Header.size].
      rewrite spec_write_0 by (by vm_compute).
      cbn [bind negb]. rewrite memcpy_in_bounds.
      * do 2 eexists. reflexivity.
      * by vm_compute.
      * done.
      * lia.
      * by vm_compute.
Qed.

Lemma raw_encode_sign_checks_witness :
  Raw.serializeToString scalar_int Header.spec x00 [] (-1) 0 1 (Some [])
  = Fatal CHECK_GE_rows_0
  /\
  (exists s,
     Raw.serializeToString scalar_int Header.spec x00 [] 0 0 (-1) (Some [])
     = Returns (true, s)).
Proof.
  split.
  - apply (proj1 (raw_encode_sign_checks scalar_int x00) Header.spec []
             (-1) 0 1 (Some [])). left. lia.
  - apply (proj2 (raw_encode_sign_checks scalar_int x00) [] [] 0 (-1)
             ∅ None 0). lia.
Defined.

(** C3.  The buffer encoder does not check the signs.  It takes
    [rows = -1] with [cols = 0] and returns [true] with an allocated
    buffer whose header says 2^32 - 1 rows; with [rows = -1] and
    [cols = 1] its size arithmetic wraps around to 12 bytes and the
    16-byte header is written over the end of the 12-byte array.  The
    string encoder aborts on the same arguments in its sign check of the
    rows. *)
Theorem serializeToBuffer_negative_rows :
  (exists heap',
     Raw.serializeToBuffer scalar_int Header.spec x00 ∅ [] (-1) 0 1
       (Some None) (Some 0)
     = Returns {| Raw.success := true; Raw.buffer_out := Some 0%nat;
                  Raw.totalSize_out := 16; Raw.heap_out := heap' |} /\
     heap' !! 0%nat
     = Some (Header.spec_fields {| rows := 2 ^ 32 - 1; cols := 0;
                                   depth := CV_32S; channels := 1 |}) /\
     ~ is_fatal (Raw.serializeToBuffer scalar_int Header.spec x00 ∅ []
                   (-1) 0 1 (Some None) (Some 0))) /\
  Raw.serializeToBuffer scalar_int Header.spec x00 ∅ (replicate 4 x00)
    (-1) 1 1 (Some None) (Some 0)
  = Undefined /\
  Raw.serializeToString scalar_int Header.spec x00 [] (-1) 0 1 (Some [])
  = Fatal CHECK_GE_rows_0 /\
  Raw.serializeToString scalar_int Header.spec x00 (replicate 4 x00)
    (-1) 1 1 (Some [])
  = Fatal CHECK_GE_rows_0.
Proof.
  split; [|split; [by vm_compute | split; reflexivity]].
  eexists. split; [reflexivity|]. split; [reflexivity|]. by vm_compute.
Qed.

(** C4.  When the header cannot be written into the fresh buffer, the
    buffer encoder deletes the buffer, stores null in [*buffer] and
    returns [false]: the heap is the one before the call. *)
Theorem serializeToBuffer_header_failure (SCALAR : ScalarType)
    (c : Header.methods) (junk : byte) (heap : gmap nat (list byte))
    (matrixData : list byte) (rows cols channels : Z)
    (p0 : option nat) (n0 : Z) (bytes : list byte) :
  let totalSize :=
    add_size_t (Raw.matrixSize_of SCALAR rows cols channels)
               (Header.size c) in
  Header.serializeToBuffer c
    {| rows := to_uint32 rows; cols := to_uint32 cols;
       depth := to_uint32 (cv_depth SCALAR);
       channels := to_uint32 channels |}
    (Some (replicate (Z.to_nat totalSize) junk)) 0
  = Returns (false, bytes) ->
  Raw.serializeToBuffer SCALAR c junk heap matrixData rows cols channels
    (Some p0) (Some n0)
  = Returns {| Raw.success := false; Raw.buffer_out := None;
               Raw.totalSize_out := totalSize; Raw.heap_out := heap |}.
Proof.
  intros totalSize W. unfold Raw.serializeToBuffer.
  cbn [bind CHECK_NOTNULL Raw.makeHeaderInformation].
  fold totalSize. unfold new_array. rewrite lookup_insert_eq, W.
  cbn [bind negb]. do 2 f_equal. unfold delete_array.
  rewrite insert_insert_eq. apply delete_insert_id.
  apply not_elem_of_dom, is_fresh.
Qed.

Lemma serializeToBuffer_header_failure_witness :
  Raw.serializeToBuffer scalar_int refusing x00 ∅ (m_data example_matrix)
    2 1 1 (Some None) (Some 0)
  = Returns {| Raw.success := false; Raw.buffer_out := None;
               Raw.totalSize_out := 24; Raw.heap_out := ∅ |}.
Proof.
  apply (serializeToBuffer_header_failure scalar_int refusing x00 ∅
           (m_data example_matrix) 2 1 1 None 0 (replicate 24 x00)).
  reflexivity.
Defined.

(** C5.  Once the header is read, a header that disagrees with a fixed
    dimension of the destination, with the type tag of [SCALAR], or
    whose channel count is not 1, makes the matrix decoder abort in one
    of the checks of lines 116-122; it does not return. *)
Theorem matrix_decode_rejects (SCALAR : ScalarType) (ROWS COLS : Z)
    (c : Header.methods) (junk : byte) (buffer : option (list byte))
    (size : Z) (dst : Matrix) (header : HeaderInformation) :
  Header.size c <= size ->
  Header.deSerializeFromBuffer c buffer 0 = Returns (Some header) ->
  rejected SCALAR ROWS COLS header ->
  exists k,
    Eigen.deSerializeFromBuffer SCALAR ROWS COLS c junk buffer size
      (Some dst) = Fatal k /\
    k ∈ [CHECK_EQ_header_rows; CHECK_EQ_header_cols;
         CHECK_EQ_header_depth; CHECK_EQ_header_channels].
Proof.
  intros Hsize Hread Hrej.
  unfold Eigen.deSerializeFromBuffer. cbn [bind CHECK_NOTNULL].
  rewrite CHECK_true by (by apply Z.leb_le). cbn [bind].
  rewrite Hread. cbn [bind].
  destruct (if negb (ROWS =? Dynamic) then rows header =? to_uint32 ROWS
            else true) eqn:Er; cbn [CHECK bind];
    [|fatal_here].
  destruct (if negb (COLS =? Dynamic) then cols header =? to_uint32 COLS
            else true) eqn:Ec; cbn [CHECK bind];
    [|fatal_here].
  destruct (depth header =? to_uint32 (cv_depth SCALAR)) eqn:Ed;
    cbn [CHECK bind]; [|fatal_here].
  destruct (1 =? channels header) eqn:Ech;
    cbn [CHECK bind]; [|fatal_here].
  exfalso.
  apply Z.eqb_eq in Ed, Ech.
  destruct Hrej as [[Hd Hne] | [[Hd Hne] | [Hne | Hne]]]; try done.
  - apply Z.eqb_neq in Hd. rewrite Hd in Er. cbn [negb] in Er.
    by apply Z.eqb_eq in Er.
  - apply Z.eqb_neq in Hd. rewrite Hd in Ec. cbn [negb] in Ec.
    by apply Z.eqb_eq in Ec.
Qed.

Lemma matrix_decode_rejects_witness :
  exists k,
    Eigen.deSerializeFromBuffer scalar_int Dynamic Dynamic Header.spec x00
      (Some three_channels) 28 (Some empty_matrix) = Fatal k /\
    k ∈ [CHECK_EQ_header_rows; CHECK_EQ_header_cols;
         CHECK_EQ_header_depth; CHECK_EQ_header_channels].
Proof.
  apply (matrix_decode_rejects scalar_int Dynamic Dynamic Header.spec x00
           (Some three_channels) 28 empty_matrix
           {| rows := 1; cols := 1; depth := CV_32S; channels := 3 |}).
  - evaluate.
  - reflexivity.
  - right. right. right. evaluate.
Defined.

(** C6, as the code has it.  The matrix decoder checks the input length
    twice, fatally: a length below the header size aborts on line 108,
    and, once the header is accepted and the destination has its shape,
    a length other than header size plus rows*cols*sizeof(SCALAR) aborts
    on line 134.  A serialized matrix with its last byte removed always
    aborts: on line 134 when the matrix has coefficients, already on
    line 108 when it has none. *)
Theorem matrix_decode_length_checks (SCALAR : ScalarType) (ROWS COLS : Z)
    (c : Header.methods) (junk : byte) :
  Header.lawful c ->
  0 <= sizeof SCALAR ->
  (forall (buffer : option (list byte)) (size : Z) (dst : Matrix),
     size < Header.size c ->
     Eigen.deSerializeFromBuffer SCALAR ROWS COLS c junk buffer size
       (Some dst) = Fatal CHECK_GE_size_header_size)
  /\
  (forall (buffer : option (list byte)) (size : Z) (dst : Matrix)
          (header : HeaderInformation),
     has_type SCALAR ROWS COLS dst ->
     Header.size c <= size ->
     Header.deSerializeFromBuffer c buffer 0 = Returns (Some header) ->
     Header.in_range header ->
     accepted SCALAR ROWS COLS header ->
     let r := if ROWS =? Dynamic then rows header else m_rows dst in
     let k := if COLS =? Dynamic then cols header else m_cols dst in
     Header.size c + sizeof SCALAR * (r * k) <= SIZE_MAX ->
     size <> Header.size c + sizeof SCALAR * (r * k) ->
     Eigen.deSerializeFromBuffer SCALAR ROWS COLS c junk buffer size
       (Some dst) = Fatal CHECK_EQ_size_total_size)
  /\
  (forall (M dst : Matrix) (s0 s : list byte),
     has_type SCALAR ROWS COLS M ->
     encodable SCALAR c M ->
     has_type SCALAR ROWS COLS dst ->
     Eigen.serializeToString SCALAR c junk M (Some s0) = Returns (true, s) ->
     Eigen.deSerializeFromString SCALAR ROWS COLS c junk (removelast s)
       (Some dst)
     = Fatal (match m_data M with
              | [] => CHECK_GE_size_header_size
              | _ :: _ => CHECK_EQ_size_total_size
              end)).
Proof.
  intros L Hsz. split; [|split].
  - intros buffer size dst Hlt.
    unfold Eigen.deSerializeFromBuffer. cbn [bind CHECK_NOTNULL].
    rewrite CHECK_false; [done|]. by apply Z.leb_gt.
  - intros buffer size dst header Hdst Hsize Hread Hin Hacc r k Hfit Hne.
    rewrite (decode_accepted SCALAR ROWS COLS c junk _ _ _ _ Hsize Hread
               Hacc). cbn zeta.
    rewrite resize_dynamic_rows, resize_dynamic_cols. fold r k.
    pose proof (Header.size_range c L) as Hs.
    destruct Hin as (Hr & Hc & _), Hdst as (Hdr & Hdc & _).
    assert (0 <= r) by (unfold r; destruct (ROWS =? Dynamic); lia).
    assert (0 <= k) by (unfold k; destruct (COLS =? Dynamic); lia).
    rewrite mul_size_t_3. unfold add_size_t, SIZE_MAX in *.
    rewrite (to_size_t_small (sizeof SCALAR * (r * k))) by nia.
    rewrite to_size_t_small by nia.
    rewrite CHECK_false; [done|]. apply Z.eqb_neq. lia.
  - intros M dst s0 s HM HE Hdst Henc.
    destruct (serializeToString_payload SCALAR ROWS COLS c junk L Hsz
                M s0 HM HE) as (s' & Henc' & Hpay).
    assert (s' = s) as -> by congruence.
    unfold Eigen.deSerializeFromString. cbn [bind CHECK_NOTNULL].
    by apply deSerializeFromBuffer_truncated.
Qed.

Lemma matrix_decode_length_checks_witness :
  Eigen.deSerializeFromBuffer scalar_int 2 Dynamic Header.spec x00
    (Some []) 15 (Some zero_matrix) = Fatal CHECK_GE_size_header_size
  /\
  Eigen.deSerializeFromBuffer scalar_uchar Dynamic Dynamic Header.spec x00
    (Some five_by_two) 25 (Some empty_matrix)
  = Fatal CHECK_EQ_size_total_size
  /\
  (exists s,
     Eigen.serializeToString scalar_int Header.spec x00 example_matrix
       (Some []) = Returns (true, s) /\
     Eigen.deSerializeFromString scalar_int 2 Dynamic Header.spec x00
       (removelast s) (Some zero_matrix)
     = Fatal CHECK_EQ_size_total_size).
Proof.
  assert (H4 : 0 <= sizeof scalar_int) by evaluate.
  assert (H1 : 0 <= sizeof scalar_uchar) by evaluate.
  split; [|split].
  - apply (proj1 (matrix_decode_length_checks scalar_int 2 Dynamic
                    Header.spec x00 spec_lawful H4)).
    evaluate.
  - apply (proj1 (proj2 (matrix_decode_length_checks scalar_uchar
                           Dynamic Dynamic Header.spec x00 spec_lawful H1))
             (Some five_by_two) 25 empty_matrix
             {| rows := 5; cols := 2; depth := CV_8U; channels := 1 |});
      first [reflexivity | evaluate | repeat split; evaluate].
  - eexists. split; [reflexivity|].
    apply (proj2 (proj2 (matrix_decode_length_checks scalar_int 2 Dynamic
                           Header.spec x00 spec_lawful H4))
             example_matrix zero_matrix []);
      first [reflexivity | repeat split; evaluate].
Defined.

(** C6, as the claim has it, fails on a matrix without coefficients: its
    serialized form is the 16 header bytes, and with one byte less the
    decoder aborts in the header-size check of line 108, not in the
    total-size check of line 134. *)
Lemma truncated_empty_matrix :
  exists s,
    Eigen.serializeToString scalar_int Header.spec x00 empty_matrix
      (Some []) = Returns (true, s) /\
    Eigen.deSerializeFromString scalar_int Dynamic Dynamic Header.spec x00
      (removelast s) (Some empty_matrix)
    = Fatal CHECK_GE_size_header_size /\
    Eigen.deSerializeFromString scalar_int Dynamic Dynamic Header.spec x00
      (removelast s) (Some empty_matrix)
    <> Fatal CHECK_EQ_size_total_size.
Proof.
  eexists. split; [reflexivity|]. split; [reflexivity|]. by vm_compute.
Qed.

(** C7.  When the header is read and accepted and the input has the
    length the header announces, the matrix decoder gives the
    destination the header's rows and columns in every dynamic
    dimension, keeps every fixed dimension, and only then copies the
    payload: the result has that shape and holds the payload bytes. *)
Theorem matrix_decode_resizes (SCALAR : ScalarType) (ROWS COLS : Z)
    (c : Header.methods) (junk : byte) (bs : list byte) (size : Z)
    (dst : Matrix) (header : HeaderInformation) :
  0 <= sizeof SCALAR ->
  0 <= Header.size c ->
  has_type SCALAR ROWS COLS dst ->
  Header.deSerializeFromBuffer c (Some bs) 0 = Returns (Some header) ->
  Header.in_range header ->
  accepted SCALAR ROWS COLS header ->
  let r := if ROWS =? Dynamic then rows header else m_rows dst in
  let k := if COLS =? Dynamic then cols header else m_cols dst in
  size = Header.size c + sizeof SCALAR * (r * k) ->
  size <= Z.of_nat (length bs) ->
  size <= SIZE_MAX ->
  m_rows (Eigen.resize_dynamic SCALAR ROWS COLS junk header dst) = r /\
  m_cols (Eigen.resize_dynamic SCALAR ROWS COLS junk header dst) = k /\
  Eigen.deSerializeFromBuffer SCALAR ROWS COLS c junk (Some bs) size
    (Some dst)
  = Returns (true, {| m_rows := r; m_cols := k;
                      m_data := slice (Header.size c)
                                  (sizeof SCALAR * (r * k)) bs |}).
Proof.
  intros Hsz Hs Hdst Hread Hin Hacc r k Hsize Hlen Hmax.
  pose proof (resize_dynamic_length SCALAR ROWS COLS junk Hsz header dst)
    as Hres.
  destruct Hin as (Hr & Hc & _).
  specialize (Hres ltac:(lia) ltac:(lia) Hdst). cbn zeta in Hres.
  destruct Hdst as (Hdr & Hdc & _).
  assert (0 <= r) by (unfold r; destruct (ROWS =? Dynamic); lia).
  assert (0 <= k) by (unfold k; destruct (COLS =? Dynamic); lia).
  assert (Hsize' : Header.size c <= size) by nia.
  rewrite (decode_accepted SCALAR ROWS COLS c junk _ _ _ _ Hsize' Hread
             Hacc). cbn zeta.
  set (m := Eigen.resize_dynamic _ _ _ _ _ _) in *.
  assert (Er : m_rows m = r) by apply resize_dynamic_rows.
  assert (Ek : m_cols m = k) by apply resize_dynamic_cols.
  rewrite Er, Ek in *. split; [done|]. split; [done|].
  rewrite mul_size_t_3. unfold add_size_t, SIZE_MAX in *.
  rewrite (to_size_t_small (sizeof SCALAR * (r * k))) by nia.
  rewrite to_size_t_small by nia.
  rewrite CHECK_true by (apply Z.eqb_eq; lia).
  cbn [bind ptr_add fmap option_fmap option_map memcpy_from].
  rewrite memcpy_in_bounds; [|lia|nia| rewrite length_drop; nia |lia].
  cbn [bind]. do 3 f_equal.
  change (Z.to_nat 0) with 0%nat. rewrite take_0. cbn [app].
  rewrite Z.add_0_l. clearbody r k m.
  rewrite (drop_ge (m_data m)) by lia. by rewrite app_nil_r.
Qed.

Lemma matrix_decode_resizes_witness :
  m_rows (Eigen.resize_dynamic scalar_uchar Dynamic Dynamic x00
            {| rows := 5; cols := 2; depth := CV_8U; channels := 1 |}
            empty_matrix) = 5 /\
  m_cols (Eigen.resize_dynamic scalar_uchar Dynamic Dynamic x00
            {| rows := 5; cols := 2; depth := CV_8U; channels := 1 |}
            empty_matrix) = 2 /\
  Eigen.deSerializeFromBuffer scalar_uchar Dynamic Dynamic Header.spec x00
    (Some five_by_two) 26 (Some empty_matrix)
  = Returns (true, {| m_rows := 5; m_cols := 2;
                      m_data := slice 16 10 five_by_two |}).
Proof.
  apply (matrix_decode_resizes scalar_uchar Dynamic Dynamic Header.spec x00
           five_by_two 26 empty_matrix
           {| rows := 5; cols := 2; depth := CV_8U; channels := 1 |}).
  - evaluate.
  - evaluate.
  - repeat split; evaluate.
  - reflexivity.
  - repeat split; evaluate.
  - repeat split; evaluate.
  - reflexivity.
  - evaluate.
  - evaluate.
Defined.



Lemma stream_insert_decimal (T : IntegerType) (v : Z) :
  bits T <> 8 -> stream_insert T v = decimal v.
Proof.
  intros Hb. unfold stream_insert.
  by destruct (Z.eqb_spec (bits T) 8).
Qed.

Lemma decimal_not_empty (v : Z) : String.length (decimal v) <> 0%nat.
Proof.
  unfold decimal.
  destruct v as [|p|p]; cbn [Z.to_int NilZero.string_of_int]; [done | | done].
  pose proof (DecimalPos.Unsigned.to_uint_nonnil p) as Hnn.
  unfold NilZero.string_of_uint.
  destruct (string_of_uint_head _ Hnn) as (a & s & k & Es & _).
  destruct (Pos.to_uint p); [done | ..]; by rewrite Es.
Qed.




(** C9.  [deSerializeFromString] on a string is
    [deSerializeFromBuffer] on the bytes and the length of that string:
    same return value, same destination, same aborts. *)
Theorem deSerializeFromString_as_buffer (SCALAR : ScalarType)
    (ROWS COLS : Z) (c : Header.methods) (junk : byte)
    (string : list byte) (matrix : option Matrix) :
  Eigen.deSerializeFromString SCALAR ROWS COLS c junk string matrix
  = Eigen.deSerializeFromBuffer SCALAR ROWS COLS c junk
      (Some string) (Z.of_nat (length string)) matrix.
Proof.
  unfold Eigen.deSerializeFromString. by destruct matrix.
Qed.

(** C10.  When the header cannot be parsed, the matrix decoder returns
    [false] and the destination is the matrix it was before the call;
    more generally, no call that returns [false] has resized the
    destination or copied into it. *)
Theorem matrix_decode_header_failure (SCALAR : ScalarType) (ROWS COLS : Z)
    (c : Header.methods) (junk : byte) (dst : Matrix) :
  (forall (bs : list byte) (size : Z),
     Header.size c <= size ->
     size <= Z.of_nat (length bs) ->
     Header.deSerializeFromBuffer c (Some bs) 0 = Returns None ->
     Eigen.deSerializeFromBuffer SCALAR ROWS COLS c junk (Some bs) size
       (Some dst)
     = Returns (false, dst))
  /\
  (forall (buffer : option (list byte)) (size : Z) (m : Matrix),
     Eigen.deSerializeFromBuffer SCALAR ROWS COLS c junk buffer size
       (Some dst)
     = Returns (false, m) ->
     Header.deSerializeFromBuffer c buffer 0 = Returns None /\ m = dst).
Proof.
  split.
  - intros bs size Hsize Hlen Hread. unfold Eigen.deSerializeFromBuffer.
    cbn [bind CHECK_NOTNULL].
    rewrite CHECK_true by (by apply Z.leb_le). cbn [bind].
    rewrite Hread. cbn [bind]. unfold Eigen.std_string.
    by rewrite decide_True.
  - intros buffer size m H. unfold Eigen.deSerializeFromBuffer in H.
    cbn [bind CHECK_NOTNULL] in H.
    apply bind_Returns in H as (_ & _ & H).
    apply bind_Returns in H as (parsed & Hread & H).
    destruct parsed as [header|].
    + repeat (cbn zeta in H; apply bind_Returns in H as (? & _ & H)).
      discriminate H.
    + apply bind_Returns in H as (_ & _ & H).
      split; [done|]. by injection H as <-.
Qed.

Lemma matrix_decode_header_failure_witness :
  Eigen.deSerializeFromBuffer scalar_int Dynamic Dynamic refusing x00
    (Some three_channels) 28 (Some example_matrix)
  = Returns (false, example_matrix).
Proof.
  apply (proj1 (matrix_decode_header_failure scalar_int Dynamic Dynamic
                  refusing x00 example_matrix) three_channels 28).
  - evaluate.
  - evaluate.
  - reflexivity.
Defined.

(** * Further properties *)

(** ** The raw-pointer encoders *)

Section RawLayout.

Variable SCALAR : ScalarType.
Variable c : Header.methods.
Variable junk : byte.
Hypothesis c_lawful : Header.lawful c.
Hypothesis sizeof_nonneg : 0 <= sizeof SCALAR.

Lemma raw_header_in_range (rows cols channels : Z) :
  0 <= rows <= INT_MAX -> 0 <= cols <= INT_MAX ->
  0 <= channels <= INT_MAX ->
  Header.in_range (raw_header SCALAR rows cols channels).
Proof.
  unfold INT_MAX, Header.in_range, raw_header. cbn. intros.
  pose proof (to_uint32_range (cv_depth SCALAR)). lia.
Qed.

Lemma makeHeaderInformation_raw (rows cols channels : Z) :
  0 <= rows <= INT_MAX -> 0 <= cols <= INT_MAX ->
  0 <= channels <= INT_MAX ->
  Raw.makeHeaderInformation SCALAR rows cols channels
    (Some (Raw.uninitialized junk))
  = Returns (raw_header SCALAR rows cols channels).
Proof.
  unfold INT_MAX. intros Hr Hc Hch.
  unfold Raw.makeHeaderInformation, raw_header. cbn [bind CHECK_NOTNULL].
  by rewrite (to_uint32_small rows), (to_uint32_small cols),
    (to_uint32_small channels) by lia.
Qed.

Lemma matrixSize_of_raw (matrixData : list byte) (rows cols channels : Z) :
  raw_encodable SCALAR c matrixData rows cols channels ->
  Raw.matrixSize_of SCALAR rows cols channels
  = sizeof SCALAR * (rows * cols * channels).
Proof.
  intros (Hr & Hc & Hch & _ & Hfit).
  pose proof (Header.size_range c c_lawful).
  rewrite matrixSize_of_eq.
  replace (sizeof SCALAR * rows * cols * channels)
    with (sizeof SCALAR * (rows * cols * channels)) by lia.
  apply to_size_t_small. unfold SIZE_MAX in *. nia.
Qed.

(** What both encoders put together: the [size] bytes of a successful
    header write followed by the first [matrixSize] bytes of the data. *)
Lemma wire_shape (h : HeaderInformation) (bs bs' data : list byte) (n : Z) :
  Header.in_range h ->
  Header.serializeToBuffer c h (Some bs) 0 = Returns (true, bs') ->
  Z.of_nat (length bs) = n + Header.size c ->
  0 <= n <= Z.of_nat (length data) ->
  let s := take (Z.to_nat (Header.size c)) bs' ++ take (Z.to_nat n) data in
  memcpy bs' (Header.size c) data n = Returns s /\
  Z.of_nat (length s) = Header.size c + n /\
  Header.deSerializeFromBuffer c (Some s) 0 = Returns (Some h) /\
  drop (Z.to_nat (Header.size c)) s = take (Z.to_nat n) data.
Proof.
  intros Hin W Hlen Hn s.
  pose proof (Header.size_range c c_lawful) as Hs.
  pose proof (Header.write_length c c_lawful _ _ _ _ _ W) as Hlen'.
  assert (Hhead : length (take (Z.to_nat (Header.size c)) bs')
                  = Z.to_nat (Header.size c)).
  { rewrite length_take. lia. }
  repeat split.
  - rewrite memcpy_in_bounds by lia.
    rewrite (drop_ge bs') by lia. by rewrite app_nil_r.
  - unfold s. rewrite length_app, Hhead, length_take. lia.
  - by apply (Header.read_write c c_lawful h bs).
  - unfold s. by rewrite drop_app_length'.
Qed.

(** The string encoder, step by step. *)
Lemma raw_serializeToString_bytes (matrixData : list byte)
    (rows cols channels : Z) (s0 : list byte) :
  raw_encodable SCALAR c matrixData rows cols channels ->
  let n := sizeof SCALAR * (rows * cols * channels) in
  exists bs',
    Header.serializeToBuffer c (raw_header SCALAR rows cols channels)
      (Some (string_resize s0 (n + Header.size c))) 0
    = Returns (true, bs') /\
    Raw.serializeToString SCALAR c junk matrixData rows cols channels
      (Some s0)
    = Returns (true, take (Z.to_nat (Header.size c)) bs'
                     ++ take (Z.to_nat n) matrixData).
Proof.
  intros HE n.
  pose proof (matrixSize_of_raw _ _ _ _ HE) as Hsize. fold n in Hsize.
  destruct HE as (Hr & Hc & Hch & Hdata & Hfit). fold n in Hdata, Hfit.
  pose proof (Header.size_range c c_lawful) as Hs.
  pose proof (lawful_size_pos c c_lawful) as Hpos.
  assert (Hn : 0 <= n) by (unfold n; nia).
  unfold Raw.serializeToString.
  rewrite (CHECK_true CHECK_GE_rows_0) by (apply Z.leb_le; lia).
  rewrite (CHECK_true CHECK_GE_cols_0) by (apply Z.leb_le; lia).
  cbn [bind CHECK_NOTNULL].
  rewrite makeHeaderInformation_raw by done.
  rewrite Hsize. cbn [bind].
  assert (Htotal : add_size_t n (Header.size c) = n + Header.size c).
  { apply to_size_t_small. unfold SIZE_MAX in *. lia. }
  rewrite Htotal.
  rewrite (CHECK_true _ (0 <? _)) by (apply Z.ltb_lt; lia).
  cbn [bind].
  destruct (Header.write_total c c_lawful
              (raw_header SCALAR rows cols channels)
              (string_resize s0 (n + Header.size c))) as [bs' W].
  { rewrite length_string_resize; lia. }
  rewrite W. cbn [bind negb].
  destruct (wire_shape _ _ bs' matrixData n
              (raw_header_in_range _ _ _ Hr Hc Hch) W) as (Hcopy & _);
    [rewrite length_string_resize; lia | lia |].
  rewrite Hcopy. cbn [bind]. eauto.
Qed.

(** The buffer encoder, step by step. *)
Lemma raw_serializeToBuffer_bytes (heap : gmap nat (list byte))
    (matrixData : list byte) (rows cols channels : Z)
    (p0 : option nat) (n0 : Z) :
  raw_encodable SCALAR c matrixData rows cols channels ->
  let n := sizeof SCALAR * (rows * cols * channels) in
  exists l bs',
    heap !! l = None /\
    Header.serializeToBuffer c (raw_header SCALAR rows cols channels)
      (Some (replicate (Z.to_nat (n + Header.size c)) junk)) 0
    = Returns (true, bs') /\
    Raw.serializeToBuffer SCALAR c junk heap matrixData rows cols channels
      (Some p0) (Some n0)
    = Returns {| Raw.success := true; Raw.buffer_out := Some l;
                 Raw.totalSize_out := n + Header.size c;
                 Raw.heap_out :=
                   <[l := take (Z.to_nat (Header.size c)) bs'
                          ++ take (Z.to_nat n) matrixData]> heap |}.
Proof.
  intros HE n.
  pose proof (matrixSize_of_raw _ _ _ _ HE) as Hsize. fold n in Hsize.
  destruct HE as (Hr & Hc & Hch & Hdata & Hfit). fold n in Hdata, Hfit.
  pose proof (Header.size_range c c_lawful) as Hs.
  assert (Hn : 0 <= n) by (unfold n; nia).
  unfold Raw.serializeToBuffer. cbn [bind CHECK_NOTNULL].
  rewrite makeHeaderInformation_raw by done.
  rewrite Hsize. cbn [bind].
  assert (Htotal : add_size_t n (Header.size c) = n + Header.size c).
  { apply to_size_t_small. unfold SIZE_MAX in *. lia. }
  rewrite Htotal. unfold new_array. set (l := fresh (dom heap)).
  assert (Hfresh : heap !! l = None) by apply not_elem_of_dom, is_fresh.
  rewrite lookup_insert_eq.
  destruct (Header.write_total c c_lawful
              (raw_header SCALAR rows cols channels)
              (replicate (Z.to_nat (n + Header.size c)) junk)) as [bs' W].
  { rewrite length_replicate. lia. }
  rewrite W. cbn [bind negb].
  destruct (wire_shape _ _ bs' matrixData n
              (raw_header_in_range _ _ _ Hr Hc Hch) W) as (Hcopy & _);
    [rewrite length_replicate; lia | lia |].
  rewrite Hcopy. cbn [bind].
  exists l, bs'. by rewrite !insert_insert_eq.
Qed.

(** X1.  For arguments that are not negative and data that holds the
    bytes to copy, the string encoder returns [true]; the string then has
    header size plus sizeof(SCALAR)*rows*cols*channels bytes, starts with
    a header that reads back as (rows, cols, depth of SCALAR, channels),
    and continues with the first bytes of the data, in order. *)
Theorem raw_serializeToString_wire (matrixData : list byte)
    (rows cols channels : Z) (s0 : list byte) :
  raw_encodable SCALAR c matrixData rows cols channels ->
  let n := sizeof SCALAR * (rows * cols * channels) in
  exists s,
    Raw.serializeToString SCALAR c junk matrixData rows cols channels
      (Some s0) = Returns (true, s) /\
    Z.of_nat (length s) = Header.size c + n /\
    Header.deSerializeFromBuffer c (Some s) 0
    = Returns (Some (raw_header SCALAR rows cols channels)) /\
    drop (Z.to_nat (Header.size c)) s = take (Z.to_nat n) matrixData.
Proof.
  intros HE n.
  destruct (raw_serializeToString_bytes matrixData rows cols channels s0 HE)
    as (bs' & W & Henc). fold n in W, Henc.
  destruct HE as (Hr & Hc & Hch & Hdata & Hfit). fold n in Hdata, Hfit.
  pose proof (Header.size_range c c_lawful) as Hs.
  assert (Hn : 0 <= n) by (unfold n; nia).
  destruct (wire_shape _ _ bs' matrixData n
              (raw_header_in_range _ _ _ Hr Hc Hch) W) as (_ & H);
    [rewrite length_string_resize; lia | lia |].
  eauto.
Qed.

(** X2.  Under the same conditions the buffer encoder returns [true]
    with a buffer that was not allocated before, whose length is the
    size it reports and whose content has the same layout: header, then
    the first bytes of the data. *)
Theorem raw_serializeToBuffer_wire (heap : gmap nat (list byte))
    (matrixData : list byte) (rows cols channels : Z)
    (p0 : option nat) (n0 : Z) :
  raw_encodable SCALAR c matrixData rows cols channels ->
  let n := sizeof SCALAR * (rows * cols * channels) in
  exists l s,
    Raw.serializeToBuffer SCALAR c junk heap matrixData rows cols channels
      (Some p0) (Some n0)
    = Returns {| Raw.success := true; Raw.buffer_out := Some l;
                 Raw.totalSize_out := Z.of_nat (length s);
                 Raw.heap_out := <[l := s]> heap |} /\
    heap !! l = None /\
    Z.of_nat (length s) = Header.size c + n /\
    Header.deSerializeFromBuffer c (Some s) 0
    = Returns (Some (raw_header SCALAR rows cols channels)) /\
    drop (Z.to_nat (Header.size c)) s = take (Z.to_nat n) matrixData.
Proof.
  intros HE n.
  destruct (raw_serializeToBuffer_bytes heap matrixData rows cols channels
              p0 n0 HE) as (l & bs' & Hfresh & W & Henc).
  fold n in W, Henc.
  destruct HE as (Hr & Hc & Hch & Hdata & Hfit). fold n in Hdata, Hfit.
  pose proof (Header.size_range c c_lawful) as Hs.
  assert (Hn : 0 <= n) by (unfold n; nia).
  destruct (wire_shape _ _ bs' matrixData n
              (raw_header_in_range _ _ _ Hr Hc Hch) W)
    as (_ & Hlen & Hread & Hdrop);
    [rewrite length_replicate; lia | lia |].
  eexists l, _. rewrite Henc.
  split; [|by eauto]. do 2 f_equal. lia.
Qed.


End RawLayout.

Lemma raw_serializeToString_wire_witness :
  exists s,
    Raw.serializeToString scalar_uchar Header.spec x00 rgb_pixel 1 1 3
      (Some []) = Returns (true, s) /\
    Z.of_nat (length s) = 16 + 3 /\
    Header.deSerializeFromBuffer Header.spec (Some s) 0
    = Returns (Some (raw_header scalar_uchar 1 1 3)) /\
    drop 16 s = [x01; x02; x03].
Proof.
  apply (raw_serializeToString_wire scalar_uchar Header.spec x00
           spec_lawful ltac:(evaluate) rgb_pixel 1 1 3 []).
  repeat split; evaluate.
Defined.

Lemma raw_serializeToBuffer_wire_witness :
  exists l s,
    Raw.serializeToBuffer scalar_uchar Header.spec x00 ∅ rgb_pixel 1 1 3
      (Some None) (Some 0)
    = Returns {| Raw.success := true; Raw.buffer_out := Some l;
                 Raw.totalSize_out := Z.of_nat (length s);
                 Raw.heap_out := <[l := s]> ∅ |} /\
    (∅ : gmap nat (list byte)) !! l = None /\
    Z.of_nat (length s) = 16 + 3 /\
    Header.deSerializeFromBuffer Header.spec (Some s) 0
    = Returns (Some (raw_header scalar_uchar 1 1 3)) /\
    drop 16 s = [x01; x02; x03].
Proof.
  apply (raw_serializeToBuffer_wire scalar_uchar Header.spec x00
           spec_lawful ltac:(evaluate) ∅ rgb_pixel 1 1 3 None 0).
  repeat split; evaluate.
Defined.



(** X4.  Whatever the header implementation does, a call of the buffer
    encoder that returns has left every array that was allocated before
    as it was.  When it returns [true], [*buffer] is an array that was
    not allocated before and is the only new one; when it returns
    [false], [*buffer] is null and the heap is the one before the call. *)
Theorem raw_serializeToBuffer_frame (SCALAR : ScalarType)
    (c : Header.methods) (junk : byte) (heap : gmap nat (list byte))
    (matrixData : list byte) (rows cols channels : Z)
    (buffer : option (option nat)) (totalSize : option Z)
    (r : Raw.buffer_result) :
  Raw.serializeToBuffer SCALAR c junk heap matrixData rows cols channels
    buffer totalSize = Returns r ->
  (forall l bs, heap !! l = Some bs -> Raw.heap_out r !! l = Some bs) /\
  match Raw.buffer_out r with
  | Some l =>
      Raw.success r = true /\ heap !! l = None /\
      is_Some (Raw.heap_out r !! l) /\
      dom (Raw.heap_out r) = {[ l ]} ∪ dom heap
  | None => Raw.success r = false /\ Raw.heap_out r = heap
  end.
Proof.
  unfold Raw.serializeToBuffer, new_array. intros H.
  apply bind_Returns in H as (_ & _ & H).
  apply bind_Returns in H as (_ & _ & H).
  apply bind_Returns in H as (header & _ & H).
  set (l := fresh (dom heap)) in H.
  assert (Hfresh : heap !! l = None) by apply not_elem_of_dom, is_fresh.
  apply bind_Returns in H as ([ok bytes] & _ & H).
  rewrite insert_insert_eq in H. destruct ok; cbn [negb] in H.
  - apply bind_Returns in H as (bytes' & _ & H).
    rewrite insert_insert_eq in H. injection H as <-. cbn.
    split; [|repeat split].
    + intros l' bs Hl'. rewrite lookup_insert_ne; [done | congruence].
    + done.
    + rewrite lookup_insert_eq. by eexists.
    + by rewrite dom_insert_L.
  - injection H as <-. cbn. unfold delete_array.
    rewrite delete_insert_id by done. done.
Qed.

Lemma raw_serializeToBuffer_frame_witness :
  exists r,
    Raw.serializeToBuffer scalar_int Header.spec x00 {[ 5%nat := [x2a] ]}
      (m_data example_matrix) 2 1 1 (Some None) (Some 0) = Returns r /\
    ((forall l bs,
        ({[ 5%nat := [x2a] ]} : gmap nat (list byte)) !! l = Some bs ->
        Raw.heap_out r !! l = Some bs) /\
     match Raw.buffer_out r with
     | Some l =>
         Raw.success r = true /\
         ({[ 5%nat := [x2a] ]} : gmap nat (list byte)) !! l = None /\
         is_Some (Raw.heap_out r !! l) /\
         dom (Raw.heap_out r) = {[ l ]} ∪ dom ({[ 5%nat := [x2a] ]}
                                               : gmap nat (list byte))
     | None =>
         Raw.success r = false /\ Raw.heap_out r = {[ 5%nat := [x2a] ]}
     end).
Proof.
  eexists. split; [reflexivity|].
  apply (raw_serializeToBuffer_frame scalar_int Header.spec x00
           {[ 5%nat := [x2a] ]} (m_data example_matrix) 2 1 1
           (Some None) (Some 0)).
  reflexivity.
Defined.

(** ** The header layout of the spec reads [uint32_t] fields and is
    canonical *)

Lemma byte_of_Z_of_byte (b : byte) : byte_of_Z (Z_of_byte b) = b.
Proof.
  unfold byte_of_Z, Z_of_byte.
  pose proof (Byte.to_N_bounded b).
  rewrite Z.mod_small by lia. rewrite N2Z.id. by rewrite Byte.of_to_N.
Qed.

Lemma le_value_bound (bs : list byte) :
  0 <= le_value bs < 256 ^ Z.of_nat (length bs).
Proof.
  induction bs as [|b bs IH]; [by cbn|].
  cbn [le_value length]. rewrite Nat2Z.inj_succ, Z.pow_succ_r by lia.
  pose proof (Byte.to_N_bounded b). unfold Z_of_byte. lia.
Qed.

Lemma le_bytes_le_value (bs : list byte) :
  le_bytes (length bs) (le_value bs) = bs.
Proof.
  induction bs as [|b bs IH]; [done|].
  cbn [le_value length le_bytes].
  pose proof (Byte.to_N_bounded b) as Hb.
  assert (Hmod : byte_of_Z (Z_of_byte b + 256 * le_value bs) = b).
  { transitivity (byte_of_Z (Z_of_byte b)); [|apply byte_of_Z_of_byte].
    unfold byte_of_Z.
    replace ((Z_of_byte b + 256 * le_value bs) mod 256)
      with (Z_of_byte b mod 256); [done|].
    by rewrite (Z.mul_comm 256), Z_mod_plus_full. }
  assert (Hdiv : (Z_of_byte b + 256 * le_value bs) / 256 = le_value bs).
  { rewrite (Z.mul_comm 256), Z.div_add by lia.
    rewrite Z.div_small; [lia|]. unfold Z_of_byte. lia. }
  by rewrite Hmod, Hdiv, IH.
Qed.

Lemma spec_reads_uint32 : reads_uint32 Header.spec.
Proof.
  intros buffer offset h. unfold Header.spec.
  cbn [Header.deSerializeFromBuffer].
  unfold Header.spec_deSerializeFromBuffer.
  destruct buffer as [bs|]; [|done]. case_decide; [|done].
  intros [= <-]. unfold Header.in_range. cbn.
  assert (Hfield : forall off,
            0 <= le_value (slice off 4 bs) < 2 ^ 32).
  { intros off. pose proof (le_value_bound (slice off 4 bs)) as Hb.
    assert (Hl : (length (slice off 4 bs) <= 4)%nat).
    { unfold slice. rewrite length_take. lia. }
    assert (256 ^ Z.of_nat (length (slice off 4 bs)) <= 256 ^ 4).
    { apply Z.pow_le_mono_r; lia. }
    change (2 ^ 32) with (256 ^ 4). lia. }
  repeat split; apply Hfield.
Qed.

Lemma spec_canonical : canonical Header.spec.
Proof.
  intros s h bs bs'. unfold Header.spec.
  cbn [Header.deSerializeFromBuffer Header.serializeToBuffer Header.size].
  unfold Header.spec_deSerializeFromBuffer.
  case_decide as Hlen; [|done]. intros [= <-] W.
  assert (Hbs : Header.spec_size <= Z.of_nat (length bs)).
  { unfold Header.spec_serializeToBuffer in W.
    apply bind_Returns in W as (b & Hm & _).
    unfold memcpy in Hm. case_decide; [lia | done]. }
  rewrite spec_write_0 in W by done.
  assert (E : bs' = Header.spec_fields
                      {| rows := le_value (slice 0 4 s);
                         cols := le_value (slice (0 + 4) 4 s);
                         depth := le_value (slice (0 + 8) 4 s);
                         channels := le_value (slice (0 + 12) 4 s) |}
                    ++ drop 16 bs) by congruence.
  subst bs'. clear W.
  change (Z.to_nat Header.spec_size) with 16%nat.
  rewrite take_app_length' by reflexivity.
  unfold Header.spec_size in Hlen.
  do 16 (destruct s as [|? s]; [cbn in Hlen; lia|]).
  unfold Header.spec_fields, slice. cbn [rows cols depth channels].
  repeat match goal with
  | |- context [Z.to_nat ?z] =>
      let v := eval vm_compute in (Z.to_nat z) in
      change (Z.to_nat z) with v
  end.
  cbn [drop take app]. rewrite !take_0.
  repeat match goal with
  | |- context [le_bytes 4 (le_value ?l)] =>
      let E := fresh in
      pose proof (le_bytes_le_value l) as E;
      change (length l) with 4%nat in E; rewrite E; clear E
  end.
  reflexivity.
Qed.

(** ** The matrix decoder on what the encoders wrote *)

Section DecodeChecks.

Variable SCALAR : ScalarType.
Variables ROWS COLS : Z.
Variable c : Header.methods.
Variable junk : byte.

(** The four checks of lines 115-122 fail in the order in which they are
    written. *)
Lemma decode_check_order (buffer : option (list byte)) (size : Z)
    (dst : Matrix) (h : HeaderInformation) :
  Header.size c <= size ->
  Header.deSerializeFromBuffer c buffer 0 = Returns (Some h) ->
  rejected SCALAR ROWS COLS h ->
  Eigen.deSerializeFromBuffer SCALAR ROWS COLS c junk buffer size (Some dst)
  = Fatal
      (if negb (ROWS =? Dynamic) && negb (rows h =? to_uint32 ROWS)
       then CHECK_EQ_header_rows
       else if negb (COLS =? Dynamic) && negb (cols h =? to_uint32 COLS)
       then CHECK_EQ_header_cols
       else if negb (depth h =? to_uint32 (cv_depth SCALAR))
       then CHECK_EQ_header_depth
       else CHECK_EQ_header_channels).
Proof.
  intros Hsize Hread Hrej.
  unfold Eigen.deSerializeFromBuffer. cbn [bind CHECK_NOTNULL].
  rewrite CHECK_true by (by apply Z.leb_le). cbn [bind].
  rewrite Hread. cbn [bind].
  destruct (ROWS =? Dynamic) eqn:ER, (COLS =? Dynamic) eqn:EC;
    cbn [negb andb];
    repeat match goal with
    | |- context [?a =? ?b] =>
        destruct (Z.eqb_spec a b); cbn [negb CHECK bind]; try done
    end;
    exfalso; apply Z.eqb_eq in ER || apply Z.eqb_neq in ER;
    apply Z.eqb_eq in EC || apply Z.eqb_neq in EC;
    destruct Hrej as [[? ?] | [[? ?] | [? | ?]]]; congruence.
Qed.

End DecodeChecks.

Section DecodeEncoded.

Variable c : Header.methods.
Variable junk : byte.
Hypothesis c_lawful : Header.lawful c.

(** What the string encoder returned for [M] is a serialized form of
    [M]. *)
Lemma serializeToString_is_payload (SCALAR : ScalarType) (ROWS COLS : Z)
    (M : Matrix) (s0 s : list byte) :
  0 <= sizeof SCALAR ->
  has_type SCALAR ROWS COLS M -> encodable SCALAR c M ->
  Eigen.serializeToString SCALAR c junk M (Some s0) = Returns (true, s) ->
  payload SCALAR c M s.
Proof.
  intros Hsz HM HE Henc.
  destruct (serializeToString_payload SCALAR ROWS COLS c junk c_lawful Hsz
              M s0 HM HE) as (s' & Henc' & Hpay).
  by assert (s' = s) as -> by congruence.
Qed.

(** The decoder reads the header of a serialized form back. *)
Lemma payload_header (SCALAR : ScalarType) (M : Matrix) (s : list byte) :
  0 <= m_rows M <= INT_MAX -> 0 <= m_cols M <= INT_MAX ->
  payload SCALAR c M s ->
  Header.size c <= Z.of_nat (length s) /\
  forall extra,
    Header.deSerializeFromBuffer c (Some (s ++ extra)) 0
    = Returns (Some (header_of SCALAR M)).
Proof.
  intros Hr Hc (bs & bs' & W & Hbs' & ->).
  pose proof (Header.size_range c c_lawful) as Hs.
  split.
  - rewrite length_app, length_take. lia.
  - intros extra. rewrite <- app_assoc.
    apply (Header.read_write c c_lawful _ bs); [|done].
    by apply header_of_in_range.
Qed.

(** A matrix of the destination's type passes the two shape checks. *)
Lemma shape_checks_pass (SCALAR : ScalarType) (ROWS COLS : Z) (M : Matrix) :
  has_type SCALAR ROWS COLS M ->
  m_rows M <= INT_MAX -> m_cols M <= INT_MAX ->
  negb (ROWS =? Dynamic) && negb (m_rows M =? to_uint32 ROWS) = false /\
  negb (COLS =? Dynamic) && negb (m_cols M =? to_uint32 COLS) = false.
Proof.
  intros (Hr & Hc & HR & HC & _) Hri Hci. unfold INT_MAX in *. split.
  - destruct (Z.eqb_spec ROWS Dynamic) as [|E]; [done|]. cbn [negb andb].
    rewrite <- (HR E), to_uint32_small by lia. by rewrite Z.eqb_refl.
  - destruct (Z.eqb_spec COLS Dynamic) as [|E]; [done|]. cbn [negb andb].
    rewrite <- (HC E), to_uint32_small by lia. by rewrite Z.eqb_refl.
Qed.

(** X5.  A matrix serialized with one element type is not decoded as
    another: when the OpenCV tag of the destination's scalar differs from
    the tag in the header, the decoder aborts in the depth check, also
    when the two scalars have the same size. *)
Theorem decode_rejects_other_scalar (SCALAR SCALAR' : ScalarType)
    (ROWS COLS : Z) (M dst : Matrix) (s0 s : list byte) :
  0 <= sizeof SCALAR ->
  has_type SCALAR ROWS COLS M ->
  encodable SCALAR c M ->
  Eigen.serializeToString SCALAR c junk M (Some s0) = Returns (true, s) ->
  to_uint32 (cv_depth SCALAR) <> to_uint32 (cv_depth SCALAR') ->
  Eigen.deSerializeFromString SCALAR' ROWS COLS c junk s (Some dst)
  = Fatal CHECK_EQ_header_depth.
Proof.
  intros Hsz HM HE Henc Hdepth.
  pose proof (serializeToString_is_payload _ _ _ _ _ _ Hsz HM HE Henc)
    as Hpay.
  destruct HE as (Hri & Hci & _).
  destruct (shape_checks_pass _ _ _ _ HM Hri Hci) as (Hrows & Hcols).
  destruct HM as (Hr & Hc & _).
  destruct (payload_header SCALAR M s ltac:(lia) ltac:(lia) Hpay)
    as (Hlen & Hread).
  specialize (Hread []). rewrite app_nil_r in Hread.
  unfold Eigen.deSerializeFromString. cbn [bind CHECK_NOTNULL].
  rewrite (decode_check_order SCALAR' ROWS COLS c junk _ _ dst _ Hlen Hread)
    by (right; right; by left).
  cbn [header_of rows cols depth]. rewrite Hrows, Hcols.
  by destruct (Z.eqb_spec (to_uint32 (cv_depth SCALAR))
                 (to_uint32 (cv_depth SCALAR'))).
Qed.

(** X6.  A matrix is not decoded into a destination of another fixed
    shape: when a fixed dimension of the destination differs from the
    serialized one, the decoder aborts in the rows check, or, when the
    rows agree, in the cols check. *)
Theorem decode_rejects_other_shape (SCALAR : ScalarType) (ROWS COLS : Z)
    (M dst : Matrix) (s0 s : list byte) :
  0 <= sizeof SCALAR ->
  has_type SCALAR Dynamic Dynamic M ->
  encodable SCALAR c M ->
  Eigen.serializeToString SCALAR c junk M (Some s0) = Returns (true, s) ->
  (ROWS <> Dynamic /\ m_rows M <> to_uint32 ROWS) \/
  (COLS <> Dynamic /\ m_cols M <> to_uint32 COLS) ->
  Eigen.deSerializeFromString SCALAR ROWS COLS c junk s (Some dst)
  = Fatal (if negb (ROWS =? Dynamic) && negb (m_rows M =? to_uint32 ROWS)
           then CHECK_EQ_header_rows else CHECK_EQ_header_cols).
Proof.
  intros Hsz HM HE Henc Hshape.
  pose proof (serializeToString_is_payload _ _ _ _ _ _ Hsz HM HE Henc)
    as Hpay.
  destruct HE as (Hri & Hci & _), HM as (Hr & Hc & _).
  destruct (payload_header SCALAR M s ltac:(lia) ltac:(lia) Hpay)
    as (Hlen & Hread).
  specialize (Hread []). rewrite app_nil_r in Hread.
  unfold Eigen.deSerializeFromString. cbn [bind CHECK_NOTNULL].
  rewrite (decode_check_order SCALAR ROWS COLS c junk _ _ dst _ Hlen Hread).
  - cbn [header_of rows cols].
    destruct (negb (ROWS =? Dynamic) && negb (m_rows M =? to_uint32 ROWS))
      eqn:Erows; [done|].
    destruct Hshape as [[HR Hne] | [HC Hne]].
    + apply Z.eqb_neq in HR, Hne. by rewrite HR, Hne in Erows.
    + apply Z.eqb_neq in HC, Hne. by rewrite HC, Hne.
  - destruct Hshape as [H | H]; [by left | right; by left].
Qed.

(** The decoder reads the header of what the raw string encoder wrote. *)
Lemma raw_string_header (SCALAR : ScalarType) (matrixData : list byte)
    (rows cols channels : Z) (s0 s : list byte) :
  0 <= sizeof SCALAR ->
  raw_encodable SCALAR c matrixData rows cols channels ->
  Raw.serializeToString SCALAR c junk matrixData rows cols channels
    (Some s0) = Returns (true, s) ->
  Header.size c <= Z.of_nat (length s) /\
  Header.deSerializeFromBuffer c (Some s) 0
  = Returns (Some (raw_header SCALAR rows cols channels)).
Proof.
  intros Hsz HE Henc.
  destruct (raw_serializeToString_bytes SCALAR c junk c_lawful Hsz
              matrixData rows cols channels s0 HE) as (bs' & W & Henc').
  rewrite Henc in Henc'. injection Henc' as ->.
  destruct HE as (Hr & Hc & Hch & Hdata & Hfit).
  pose proof (Header.size_range c c_lawful) as Hs.
  assert (Hn : 0 <= sizeof SCALAR * (rows * cols * channels)) by nia.
  destruct (wire_shape c c_lawful _ _ bs' matrixData
              (sizeof SCALAR * (rows * cols * channels))
              (raw_header_in_range SCALAR _ _ _ Hr Hc Hch) W)
    as (_ & Hlen & Hread & _);
    [rewrite length_string_resize; lia | lia |].
  split; [lia | done].
Qed.

(** X7.  Interleaved data is not decoded as a matrix: what the raw string
    encoder wrote for a channel count other than 1 makes the matrix
    decoder abort in the channels check, even when rows, cols and element
    type fit the destination. *)
Theorem decode_rejects_channels (SCALAR : ScalarType) (ROWS COLS : Z)
    (matrixData : list byte) (rows cols channels : Z) (dst : Matrix)
    (s0 s : list byte) :
  0 <= sizeof SCALAR ->
  raw_encodable SCALAR c matrixData rows cols channels ->
  Raw.serializeToString SCALAR c junk matrixData rows cols channels
    (Some s0) = Returns (true, s) ->
  (ROWS <> Dynamic -> rows = to_uint32 ROWS) ->
  (COLS <> Dynamic -> cols = to_uint32 COLS) ->
  channels <> 1 ->
  Eigen.deSerializeFromString SCALAR ROWS COLS c junk s (Some dst)
  = Fatal CHECK_EQ_header_channels.
Proof.
  intros Hsz HE Henc HR HC Hch.
  destruct (raw_string_header _ _ _ _ _ _ _ Hsz HE Henc) as (Hlen & Hread).
  unfold Eigen.deSerializeFromString. cbn [bind CHECK_NOTNULL].
  rewrite (decode_check_order SCALAR ROWS COLS c junk _ _ dst _ Hlen Hread)
    by (right; right; by right).
  unfold raw_header. cbn -[Z.eqb to_uint32 Dynamic].
  destruct (Z.eqb_spec ROWS Dynamic) as [|ER]; cbn [negb andb];
    [|rewrite <- (HR ER), Z.eqb_refl; cbn [negb]];
    (destruct (Z.eqb_spec COLS Dynamic) as [|EC]; cbn [negb andb];
       [|rewrite <- (HC EC), Z.eqb_refl; cbn [negb]]);
    by rewrite Z.eqb_refl.
Qed.

(** X8.  A serialized matrix followed by further bytes is not decoded:
    with any bytes appended, the decoder aborts in the total-size
    check. *)
Theorem decode_rejects_appended (SCALAR : ScalarType) (ROWS COLS : Z)
    (M dst : Matrix) (s0 s extra : list byte) :
  0 <= sizeof SCALAR ->
  has_type SCALAR ROWS COLS M ->
  encodable SCALAR c M ->
  has_type SCALAR ROWS COLS dst ->
  Eigen.serializeToString SCALAR c junk M (Some s0) = Returns (true, s) ->
  extra <> [] ->
  Eigen.deSerializeFromString SCALAR ROWS COLS c junk (s ++ extra)
    (Some dst)
  = Fatal CHECK_EQ_size_total_size.
Proof.
  intros Hsz HM HE Hdst Henc Hextra.
  destruct (serializeToString_is_payload _ _ _ _ _ _ Hsz HM HE Henc)
    as (bs & bs' & W & Hbs' & ->).
  pose proof (Header.size_range c c_lawful) as Hs.
  assert (Hhead : length (take (Z.to_nat (Header.size c)) bs')
                  = Z.to_nat (Header.size c)).
  { rewrite length_take. lia. }
  assert (Hpos : (0 < length extra)%nat) by (destruct extra; [done | cbn; lia]).
  unfold Eigen.deSerializeFromString. cbn [bind CHECK_NOTNULL].
  rewrite <- app_assoc.
  destruct (decode_header_of SCALAR ROWS COLS c junk c_lawful Hsz M dst
              bs bs' (m_data M ++ extra)
              (Z.of_nat (length (take (Z.to_nat (Header.size c)) bs'
                                 ++ m_data M ++ extra)))
              HM HE Hdst W Hbs') as (storage & _ & ->).
  { rewrite length_app, Hhead. lia. }
  rewrite CHECK_false; [done|].
  apply Z.eqb_neq. rewrite !length_app, Hhead. lia.
Qed.


End DecodeEncoded.

(** ** What a successful decode tells *)

Lemma CHECK_passed (k : check) (b : bool) (u : unit) :
  CHECK k b = Returns u -> b = true.
Proof. by destruct b. Qed.

Section DecodeInversion.

Variable SCALAR : ScalarType.
Variables ROWS COLS : Z.
Variable c : Header.methods.
Variable junk : byte.

(** A call that returns [true] went through every check and the copy. *)
Lemma decode_true_inv (buffer : option (list byte)) (size : Z)
    (dst M : Matrix) :
  Eigen.deSerializeFromBuffer SCALAR ROWS COLS c junk buffer size (Some dst)
  = Returns (true, M) ->
  exists h,
    Header.size c <= size /\
    Header.deSerializeFromBuffer c buffer 0 = Returns (Some h) /\
    accepted SCALAR ROWS COLS h /\
    let m := Eigen.resize_dynamic SCALAR ROWS COLS junk h dst in
    let matrix_size :=
      mul_size_t (mul_size_t (sizeof SCALAR) (to_size_t (m_rows m)))
                 (to_size_t (m_cols m)) in
    size = add_size_t matrix_size (Header.size c) /\
    memcpy_from (m_data m) 0 (ptr_add buffer (Header.size c)) matrix_size
    = Returns (m_data M) /\
    m_rows M = m_rows m /\ m_cols M = m_cols m.
Proof.
  unfold Eigen.deSerializeFromBuffer. cbn [bind CHECK_NOTNULL]. intros H.
  apply bind_Returns in H as (? & Hsize & H).
  apply CHECK_passed, Z.leb_le in Hsize.
  apply bind_Returns in H as ([h|] & Hread & H).
  2:{ apply bind_Returns in H as (? & _ & H). discriminate H. }
  apply bind_Returns in H as (? & Hrows & H). apply CHECK_passed in Hrows.
  apply bind_Returns in H as (? & Hcols & H). apply CHECK_passed in Hcols.
  apply bind_Returns in H as (? & Hdepth & H).
  apply CHECK_passed, Z.eqb_eq in Hdepth.
  apply bind_Returns in H as (? & Hch & H).
  apply CHECK_passed, Z.eqb_eq in Hch.
  cbn zeta in H.
  apply bind_Returns in H as (? & Htotal & H).
  apply CHECK_passed, Z.eqb_eq in Htotal.
  apply bind_Returns in H as (data & Hcopy & H).
  injection H as <-. cbn [m_rows m_cols m_data].
  exists h. repeat split; try done.
  - intros E. apply Z.eqb_neq in E. rewrite E in Hrows.
    by apply Z.eqb_eq in Hrows.
  - intros E. apply Z.eqb_neq in E. rewrite E in Hcols.
    by apply Z.eqb_eq in Hcols.
Qed.

(** X9.  The decoder keeps the destination a well-formed matrix of its
    type: after a call that returns, with [true] or with [false], the
    fixed dimensions are the ones of the type and the storage holds
    sizeof(SCALAR)*rows*cols bytes. *)
Theorem decode_keeps_type (buffer : option (list byte)) (size : Z)
    (dst M : Matrix) (ok : bool) :
  0 <= sizeof SCALAR ->
  reads_uint32 c ->
  has_type SCALAR ROWS COLS dst ->
  Eigen.deSerializeFromBuffer SCALAR ROWS COLS c junk buffer size (Some dst)
  = Returns (ok, M) ->
  has_type SCALAR ROWS COLS M.
Proof.
  intros Hsz Hrange Hdst H. destruct ok.
  - apply decode_true_inv in H
      as (h & _ & Hread & _ & _ & Hcopy & Hrows & Hcols).
    destruct (Hrange _ _ _ Hread) as (Hr & Hc & _).
    pose proof (resize_dynamic_length SCALAR ROWS COLS junk Hsz h dst
                  ltac:(lia) ltac:(lia) Hdst) as Hlen. cbn zeta in Hlen.
    rewrite resize_dynamic_rows in Hrows.
    rewrite resize_dynamic_cols in Hcols.
    assert (Hdata : length (m_data M)
                    = length (m_data (Eigen.resize_dynamic SCALAR ROWS COLS
                                        junk h dst))).
    { unfold memcpy_from in Hcopy.
      destruct (ptr_add buffer (Header.size c)); [|done].
      by apply memcpy_length in Hcopy. }
    rewrite resize_dynamic_rows, resize_dynamic_cols in Hlen.
    destruct Hdst as (Hdr & Hdc & HR & HC & _).
    unfold has_type. rewrite Hrows, Hcols, Hdata.
    destruct (Z.eqb_spec ROWS Dynamic), (Z.eqb_spec COLS Dynamic);
      repeat split; try done; try lia; auto.
  - unfold Eigen.deSerializeFromBuffer in H. cbn [bind CHECK_NOTNULL] in H.
    apply bind_Returns in H as (? & _ & H).
    apply bind_Returns in H as ([h|] & _ & H).
    + repeat (cbn zeta in H; apply bind_Returns in H as (? & _ & H)).
      discriminate H.
    + apply bind_Returns in H as (? & _ & H). by injection H as <-.
Qed.

End DecodeInversion.

(** X10.  Decoding and encoding are inverse in this direction too: when
    the header has one serialized form, a string that decodes to [M]
    is the string that encoding [M] returns. *)
Theorem encode_decoded (SCALAR : ScalarType) (ROWS COLS : Z)
    (c : Header.methods) (junk : byte) (s s0 : list byte) (dst M : Matrix) :
  Header.lawful c ->
  reads_uint32 c ->
  canonical c ->
  0 <= sizeof SCALAR ->
  has_type SCALAR ROWS COLS dst ->
  Eigen.deSerializeFromString SCALAR ROWS COLS c junk s (Some dst)
  = Returns (true, M) ->
  encodable SCALAR c M ->
  Eigen.serializeToString SCALAR c junk M (Some s0) = Returns (true, s).
Proof.
  intros L Hrange Hcanon Hsz Hdst Hdec HE.
  unfold Eigen.deSerializeFromString in Hdec.
  cbn [bind CHECK_NOTNULL] in Hdec.
  apply decode_true_inv in Hdec
    as (h & Hsize & Hread & Hacc & Htotal & Hcopy & Hrows & Hcols).
  destruct (Hrange _ _ _ Hread) as (Hr & Hc & _).
  pose proof (resize_dynamic_length SCALAR ROWS COLS junk Hsz h dst
                ltac:(lia) ltac:(lia) Hdst) as Hlen. cbn zeta in Hlen.
  pose proof (resize_dynamic_rows SCALAR ROWS COLS junk h dst) as Er.
  pose proof (resize_dynamic_cols SCALAR ROWS COLS junk h dst) as Ec.
  set (m := Eigen.resize_dynamic SCALAR ROWS COLS junk h dst) in *.
  rewrite <- Hrows in Htotal, Hcopy, Hlen, Er.
  rewrite <- Hcols in Htotal, Hcopy, Hlen, Ec.
  destruct HE as (Hri & Hci & Hfit).
  pose proof (Header.size_range c L) as Hs.
  destruct Hdst as (Hdr & Hdc & HdR & HdC & _).
  destruct Hacc as (HaR & HaC & Hdepth & Hch).
  assert (Hrows0 : 0 <= m_rows M)
    by (rewrite Er; destruct (ROWS =? Dynamic); lia).
  assert (Hcols0 : 0 <= m_cols M)
    by (rewrite Ec; destruct (COLS =? Dynamic); lia).
  set (n := sizeof SCALAR * (m_rows M * m_cols M)) in *.
  assert (Hn : 0 <= n) by (unfold n; nia).
  (* the input has exactly header and coefficients *)
  rewrite mul_size_t_3 in Htotal, Hcopy. fold n in Htotal, Hcopy.
  unfold add_size_t, SIZE_MAX in *.
  rewrite (to_size_t_small n) in Htotal, Hcopy by lia.
  rewrite to_size_t_small in Htotal by lia.
  (* the coefficients are the bytes after the header *)
  assert (Hdata : m_data M = drop (Z.to_nat (Header.size c)) s).
  { cbn [ptr_add fmap option_fmap option_map memcpy_from] in Hcopy.
    unfold memcpy in Hcopy. case_decide; [|done].
    injection Hcopy as <-.
    rewrite (drop_ge (m_data m)) by lia. rewrite app_nil_r.
    apply take_ge. rewrite length_drop. lia. }
  (* the header is the one of M *)
  assert (Hh : header_of SCALAR M = h).
  { destruct h as [hr hc hd hch]. unfold header_of, INT_MAX in *.
    cbn in *. f_equal; try done.
    - destruct (Z.eqb_spec ROWS Dynamic) as [|E]; [done|].
      rewrite (HaR E), to_uint32_small; rewrite <- (HdR E); lia.
    - destruct (Z.eqb_spec COLS Dynamic) as [|E]; [done|].
      rewrite (HaC E), to_uint32_small; rewrite <- (HdC E); lia. }
  assert (HM : has_type SCALAR ROWS COLS M).
  { repeat split; try done.
    - intros E. rewrite Er.
      destruct (Z.eqb_spec ROWS Dynamic); [done | auto].
    - intros E. rewrite Ec.
      destruct (Z.eqb_spec COLS Dynamic); [done | auto].
    - rewrite Hdata, length_drop. fold n. lia. }
  destruct (serializeToString_payload SCALAR ROWS COLS c junk L Hsz M s0 HM)
    as (s' & Henc & bs & bs' & W & Hbs' & ->).
  { repeat split; done. }
  rewrite Henc. do 2 f_equal.
  rewrite Hh in W. rewrite (Hcanon _ _ _ _ Hread W), Hdata.
  apply take_drop.
Qed.

(** X11.  Buffers do not interfere.  Two matrices serialized one after
    the other end up in two different arrays, the second call leaves the
    first array as it was, and each array still decodes to its matrix. *)
Theorem buffers_do_not_interfere (SCALAR : ScalarType) (ROWS COLS : Z)
    (c : Header.methods) (junk : byte) (heap : gmap nat (list byte))
    (M1 M2 dst : Matrix) (p1 p2 : option nat) (n1 n2 : Z) :
  Header.lawful c ->
  0 <= sizeof SCALAR ->
  has_type SCALAR ROWS COLS M1 -> encodable SCALAR c M1 ->
  has_type SCALAR ROWS COLS M2 -> encodable SCALAR c M2 ->
  has_type SCALAR ROWS COLS dst ->
  exists l1 s1 heap1 l2 s2 heap2,
    Eigen.serializeToBuffer SCALAR c junk heap M1 (Some p1) (Some n1)
    = Returns {| Raw.success := true; Raw.buffer_out := Some l1;
                 Raw.totalSize_out := Z.of_nat (length s1);
                 Raw.heap_out := heap1 |} /\
    Eigen.serializeToBuffer SCALAR c junk heap1 M2 (Some p2) (Some n2)
    = Returns {| Raw.success := true; Raw.buffer_out := Some l2;
                 Raw.totalSize_out := Z.of_nat (length s2);
                 Raw.heap_out := heap2 |} /\
    l1 <> l2 /\
    heap2 !! l1 = Some s1 /\ heap2 !! l2 = Some s2 /\
    Eigen.deSerializeFromBuffer SCALAR ROWS COLS c junk (heap2 !! l1)
      (Z.of_nat (length s1)) (Some dst) = Returns (true, M1) /\
    Eigen.deSerializeFromBuffer SCALAR ROWS COLS c junk (heap2 !! l2)
      (Z.of_nat (length s2)) (Some dst) = Returns (true, M2).
Proof.
  intros L Hsz HM1 HE1 HM2 HE2 Hdst.
  destruct (serializeToBuffer_payload SCALAR ROWS COLS c junk L Hsz
              heap M1 p1 n1 HM1 HE1)
    as (l1 & s1 & heap1 & Henc1 & Hfresh1 & -> & Hpay1).
  destruct (serializeToBuffer_payload SCALAR ROWS COLS c junk L Hsz
              (<[l1 := s1]> heap) M2 p2 n2 HM2 HE2)
    as (l2 & s2 & heap2 & Henc2 & Hfresh2 & -> & Hpay2).
  assert (Hne : l1 <> l2).
  { intros ->. by rewrite lookup_insert_eq in Hfresh2. }
  exists l1, s1, (<[l1 := s1]> heap), l2, s2,
    (<[l2 := s2]> (<[l1 := s1]> heap)).
  rewrite lookup_insert_eq, lookup_insert_ne, lookup_insert_eq by done.
  repeat split; try done;
    by apply deSerializeFromBuffer_payload.
Qed.

Lemma buffers_do_not_interfere_witness :
  exists l1 s1 heap1 l2 s2 heap2,
    Eigen.serializeToBuffer scalar_int Header.spec x00 ∅ example_matrix
      (Some None) (Some 0)
    = Returns {| Raw.success := true; Raw.buffer_out := Some l1;
                 Raw.totalSize_out := Z.of_nat (length s1);
                 Raw.heap_out := heap1 |} /\
    Eigen.serializeToBuffer scalar_int Header.spec x00 heap1 zero_matrix
      (Some None) (Some 0)
    = Returns {| Raw.success := true; Raw.buffer_out := Some l2;
                 Raw.totalSize_out := Z.of_nat (length s2);
                 Raw.heap_out := heap2 |} /\
    l1 <> l2 /\
    heap2 !! l1 = Some s1 /\ heap2 !! l2 = Some s2 /\
    Eigen.deSerializeFromBuffer scalar_int 2 1 Header.spec x00
      (heap2 !! l1) (Z.of_nat (length s1)) (Some zero_matrix)
    = Returns (true, example_matrix) /\
    Eigen.deSerializeFromBuffer scalar_int 2 1 Header.spec x00
      (heap2 !! l2) (Z.of_nat (length s2)) (Some zero_matrix)
    = Returns (true, zero_matrix).
Proof.
  apply (buffers_do_not_interfere scalar_int 2 1 Header.spec x00 ∅
           example_matrix zero_matrix zero_matrix None None 0 0
           spec_lawful);
    first [evaluate | repeat split; evaluate].
Defined.

(** ** Witnesses of the decoder properties *)

Lemma decode_rejects_other_scalar_witness :
  exists s,
    Eigen.serializeToString scalar_int Header.spec x00 example_matrix
      (Some []) = Returns (true, s) /\
    Eigen.deSerializeFromString scalar_float 2 Dynamic Header.spec x00 s
      (Some zero_matrix) = Fatal CHECK_EQ_header_depth.
Proof.
  eexists. split; [reflexivity|].
  apply (decode_rejects_other_scalar Header.spec x00 spec_lawful
           scalar_int scalar_float 2 Dynamic example_matrix zero_matrix []);
    first [reflexivity | evaluate | repeat split; evaluate].
Defined.

Lemma decode_rejects_other_shape_witness :
  exists s,
    Eigen.serializeToString scalar_int Header.spec x00 example_matrix
      (Some []) = Returns (true, s) /\
    Eigen.deSerializeFromString scalar_int 3 Dynamic Header.spec x00 s
      (Some zero_matrix) = Fatal CHECK_EQ_header_rows.
Proof.
  eexists. split; [reflexivity|].
  apply (decode_rejects_other_shape Header.spec x00 spec_lawful
           scalar_int 3 Dynamic example_matrix zero_matrix []);
    first [reflexivity | evaluate | repeat split; evaluate | idtac].
  left. split; evaluate.
Defined.

Lemma decode_rejects_channels_witness :
  exists s,
    Raw.serializeToString scalar_uchar Header.spec x00 rgb_pixel 1 1 3
      (Some []) = Returns (true, s) /\
    Eigen.deSerializeFromString scalar_uchar Dynamic Dynamic Header.spec
      x00 s (Some empty_matrix) = Fatal CHECK_EQ_header_channels.
Proof.
  eexists. split; [reflexivity|].
  apply (decode_rejects_channels Header.spec x00 spec_lawful
           scalar_uchar Dynamic Dynamic rgb_pixel 1 1 3 empty_matrix []);
    first [reflexivity | evaluate | repeat split; evaluate].
Defined.

Lemma decode_rejects_appended_witness :
  exists s,
    Eigen.serializeToString scalar_int Header.spec x00 example_matrix
      (Some []) = Returns (true, s) /\
    Eigen.deSerializeFromString scalar_int 2 Dynamic Header.spec x00
      (s ++ [x00]) (Some zero_matrix) = Fatal CHECK_EQ_size_total_size.
Proof.
  eexists. split; [reflexivity|].
  apply (decode_rejects_appended Header.spec x00 spec_lawful
           scalar_int 2 Dynamic example_matrix zero_matrix []);
    first [reflexivity | evaluate | repeat split; evaluate].
Defined.

Lemma decode_keeps_type_witness :
  exists M,
    Eigen.deSerializeFromBuffer scalar_uchar Dynamic Dynamic Header.spec
      x00 (Some five_by_two) 26 (Some empty_matrix) = Returns (true, M) /\
    has_type scalar_uchar Dynamic Dynamic M.
Proof.
  eexists. split; [reflexivity|].
  apply (decode_keeps_type scalar_uchar Dynamic Dynamic Header.spec x00
           (Some five_by_two) 26 empty_matrix _ true
           ltac:(evaluate) spec_reads_uint32);
    first [reflexivity | repeat split; evaluate].
Defined.

Lemma encode_decoded_witness :
  exists M,
    Eigen.deSerializeFromString scalar_uchar Dynamic Dynamic Header.spec
      x00 five_by_two (Some empty_matrix) = Returns (true, M) /\
    Eigen.serializeToString scalar_uchar Header.spec x00 M (Some [])
    = Returns (true, five_by_two).
Proof.
  eexists. split; [reflexivity|].
  apply (encode_decoded scalar_uchar Dynamic Dynamic Header.spec x00
           five_by_two [] empty_matrix _ spec_lawful spec_reads_uint32
           spec_canonical);
    first [reflexivity | evaluate | repeat split; evaluate].
Defined.

(** ** The text codec on other strings *)

Lemma append_cons (a : ascii) (s t : string) :
  String.append (String a s) t = String a (String.append s t).
Proof. reflexivity. Qed.

Lemma append_empty (t : string) : String.append EmptyString t = t.
Proof. reflexivity. Qed.

Lemma skip_spaces_blank (ws s : string) :
  blank ws = true ->
  skip_spaces (String.append ws s) = skip_spaces s.
Proof.
  induction ws as [|a ws IH]; [done|].
  rewrite append_cons. cbn [blank skip_spaces].
  intros [Ha Hws]%andb_true_iff. rewrite Ha. by apply IH.
Qed.

Lemma digits_end (acc : option Z) (tail : string) :
  ends_number tail = true -> digits acc tail = acc.
Proof.
  destruct tail as [|a tail]; [done|]. cbn [ends_number digits].
  by destruct (digit_of a).
Qed.

Lemma digits_acc_app (d : Decimal.uint) (acc : positive) (tail : string) :
  ends_number tail = true ->
  digits (Some (Z.pos acc)) (String.append (NilEmpty.string_of_uint d) tail)
  = Some (Z.pos (Pos.of_uint_acc d acc)).
Proof.
  intros Htail. revert acc.
  induction d; intros acc;
    cbn [NilEmpty.string_of_uint Pos.of_uint_acc];
    rewrite ?append_cons, ?append_empty; cbn [digits];
    [by apply digits_end | ..];
    rewrite <- IHd;
    match goal with
    | |- context [digit_of ?a] =>
        let v := eval vm_compute in (digit_of a) in
        change (digit_of a) with v
    end; cbn [default]; unfold id; do 2 f_equal; lia.
Qed.

Lemma digits_zero_app (d : Decimal.uint) (tail : string) :
  ends_number tail = true ->
  digits (Some 0) (String.append (NilEmpty.string_of_uint d) tail)
  = Some (Z.of_N (Pos.of_uint d)).
Proof.
  intros Htail.
  induction d;
    cbn [NilEmpty.string_of_uint Pos.of_uint];
    rewrite ?append_cons, ?append_empty; cbn [digits];
    [by apply digits_end | exact IHd | ..];
    match goal with
    | |- context [digit_of ?a] =>
        let v := eval vm_compute in (digit_of a) in
        change (digit_of a) with v
    end; cbn [default]; unfold id;
    match goal with
    | |- digits (Some ?k) _ = _ =>
        let v := eval vm_compute in k in change k with v
    end; by apply digits_acc_app.
Qed.

(** [std::stoll] on blanks, the text of a number, and a rest that does
    not go on with a digit. *)
Lemma stoll_number (ws tail : string) (v : Z) :
  blank ws = true -> ends_number tail = true ->
  stoll (String.append ws (String.append (decimal v) tail))
  = if (LLONG_MIN <=? v) && (v <=? LLONG_MAX) then Returns v
    else Throws out_of_range.
Proof.
  intros Hws Htail. unfold stoll. rewrite skip_spaces_blank by done.
  unfold decimal.
  destruct v as [|p|p]; cbn [Z.to_int NilZero.string_of_int].
  - cbn [NilZero.string_of_uint NilEmpty.string_of_uint].
    rewrite append_cons, append_empty. cbn [skip_spaces].
    change (isspace "0") with false. cbn iota.
    change ("0" =? "-")%char with false.
    change ("0" =? "+")%char with false. cbn iota.
    cbn [digits]. change (digit_of "0") with (Some 0). cbn iota.
    by rewrite digits_end.
  - pose proof (DecimalPos.Unsigned.to_uint_nonnil p) as Hnn.
    pose proof (DecimalPos.Unsigned.of_to p) as Hval.
    assert (Es' : NilZero.string_of_uint (Pos.to_uint p)
                  = NilEmpty.string_of_uint (Pos.to_uint p)).
    { unfold NilZero.string_of_uint. by destruct (Pos.to_uint p). }
    rewrite Es'.
    destruct (string_of_uint_head _ Hnn) as (a & s & k & Es & Ek).
    destruct (digit_of_char _ _ Ek) as (Hsp & Hm & Hp & _).
    pose proof (digits_zero_app (Pos.to_uint p) tail Htail) as Hd.
    rewrite Es in *. rewrite append_cons in *. cbn [skip_spaces].
    rewrite Hsp, Hm, Hp, (digits_None _ _ _ Ek), Hd, Hval.
    reflexivity.
  - pose proof (DecimalPos.Unsigned.to_uint_nonnil p) as Hnn.
    pose proof (DecimalPos.Unsigned.of_to p) as Hval.
    assert (Es' : NilZero.string_of_uint (Pos.to_uint p)
                  = NilEmpty.string_of_uint (Pos.to_uint p)).
    { unfold NilZero.string_of_uint. by destruct (Pos.to_uint p). }
    rewrite Es'.
    destruct (string_of_uint_head _ Hnn) as (a & s & k & Es & Ek).
    pose proof (digits_zero_app (Pos.to_uint p) tail Htail) as Hd.
    rewrite Es in *. rewrite !append_cons in *. cbn [skip_spaces].
    change (isspace "-") with false. cbn iota.
    change ("-" =? "-")%char with true. cbn iota.
    rewrite (digits_None _ _ _ Ek), Hd, Hval.
    reflexivity.
Qed.

Lemma append_empty_r (s : string) : String.append s EmptyString = s.
Proof.
  induction s as [|a s IH]; [done|]. by rewrite append_cons, IH.
Qed.

Lemma length_append_pos (s t : string) :
  String.length t <> 0%nat -> String.length (String.append s t) <> 0%nat.
Proof. destruct s; [done|]. by rewrite append_cons. Qed.

Lemma decimal_append_not_empty (ws tail : string) (v : Z) :
  String.length (String.append ws (String.append (decimal v) tail)) <> 0%nat.
Proof.
  apply length_append_pos.
  pose proof (decimal_not_empty v) as H.
  destruct (decimal v); [done|]. by rewrite append_cons.
Qed.

(** X12.  The text round trip stops at the range of [long long]: a value
    outside it (an unsigned 64-bit value from 2^63 on) is written as its
    decimal text, and decoding that text throws [std::out_of_range]. *)
Theorem text_out_of_range (SCALAR : IntegerType) (value v0 : Z)
    (s0 : string) :
  bits SCALAR <> 8 ->
  value < LLONG_MIN \/ LLONG_MAX < value ->
  exists s,
    Scalar.serializeToString SCALAR value (Some s0) = Returns (true, s) /\
    Scalar.deSerializeFromString SCALAR s (Some v0) = Throws out_of_range.
Proof.
  intros Hwide Hv. exists (decimal value).
  split.
  { unfold Scalar.serializeToString. cbn [bind CHECK_NOTNULL].
    by rewrite stream_insert_decimal. }
  unfold Scalar.deSerializeFromString. cbn [bind CHECK_NOTNULL].
  rewrite CHECK_true.
  2:{ pose proof (decimal_not_empty value).
      by destruct (String.length (decimal value)). }
  cbn [bind].
  pose proof (stoll_number EmptyString EmptyString value eq_refl eq_refl)
    as Hst.
  rewrite append_empty, append_empty_r in Hst. rewrite Hst.
  destruct (Z.leb_spec LLONG_MIN value), (Z.leb_spec value LLONG_MAX);
    cbn [andb bind]; try done; lia.
Qed.

Lemma text_out_of_range_witness :
  exists s,
    Scalar.serializeToString uint64_t (2 ^ 63) (Some EmptyString)
    = Returns (true, s) /\
    Scalar.deSerializeFromString uint64_t s (Some 0) = Throws out_of_range.
Proof.
  apply (text_out_of_range uint64_t (2 ^ 63) 0 EmptyString).
  - evaluate.
  - right. evaluate.
Defined.

(** X13.  The text decoder reads a number inside a longer string: blanks
    in front of the text of a value and any rest that does not go on
    with a digit are ignored, and the value, narrowed to [SCALAR], is
    decoded. *)
Theorem text_ignores_blanks_and_rest (SCALAR : IntegerType)
    (ws tail : string) (value v0 : Z) :
  blank ws = true ->
  ends_number tail = true ->
  LLONG_MIN <= value <= LLONG_MAX ->
  Scalar.deSerializeFromString SCALAR
    (String.append ws (String.append (decimal value) tail)) (Some v0)
  = Returns (true, narrow SCALAR value).
Proof.
  intros Hws Htail Hv.
  unfold Scalar.deSerializeFromString. cbn [bind CHECK_NOTNULL].
  rewrite CHECK_true.
  2:{ pose proof (decimal_append_not_empty ws tail value).
      by destruct (String.length _). }
  cbn [bind]. rewrite stoll_number by done.
  destruct (Z.leb_spec LLONG_MIN value), (Z.leb_spec value LLONG_MAX);
    cbn [andb bind]; try done; lia.
Qed.

Lemma text_ignores_blanks_and_rest_witness :
  Scalar.deSerializeFromString int32_t
    (String.append "  " (String.append (decimal (-12)) "ab")) (Some 0)
  = Returns (true, narrow int32_t (-12)).
Proof.
  apply (text_ignores_blanks_and_rest int32_t "  " "ab" (-12) 0);
    first [reflexivity | split; evaluate].
Defined.

(** X14.  A string without a number is an exception, not an abort: when
    the string is not empty but holds, after its blanks, nothing, or a
    sign that no digit follows, or a character that is neither sign nor
    digit, the text decoder throws [std::invalid_argument]. *)
Theorem text_invalid_argument (SCALAR : IntegerType) (ws rest : string)
    (v0 : Z) :
  blank ws = true ->
  no_number rest = true ->
  String.append ws rest <> EmptyString ->
  Scalar.deSerializeFromString SCALAR (String.append ws rest) (Some v0)
  = Throws invalid_argument.
Proof.
  intros Hws Hrest Hne.
  unfold Scalar.deSerializeFromString. cbn [bind CHECK_NOTNULL].
  rewrite CHECK_true by (by destruct (String.append ws rest)).
  cbn [bind]. unfold stoll. rewrite skip_spaces_blank by done.
  destruct rest as [|a rest]; [done|]. cbn [no_number] in Hrest.
  destruct (Ascii.eqb_spec a "-") as [->|Hm].
  - cbn [orb] in Hrest. cbn [skip_spaces].
    change (isspace "-") with false. cbn iota.
    change ("-" =? "-")%char with true. cbn iota.
    by rewrite digits_end.
  - destruct (Ascii.eqb_spec a "+") as [->|Hp].
    + cbn [orb] in Hrest. cbn [skip_spaces].
      change (isspace "+") with false. cbn iota.
      change ("+" =? "-")%char with false.
      change ("+" =? "+")%char with true. cbn iota.
      by rewrite digits_end.
    + cbn [orb] in Hrest.
      apply andb_true_iff in Hrest as [Hsp Hend].
      apply negb_true_iff in Hsp. cbn [skip_spaces]. rewrite Hsp.
      apply Ascii.eqb_neq in Hm, Hp. rewrite Hm, Hp.
      by rewrite digits_end.
Qed.

Lemma text_invalid_argument_witness :
  Scalar.deSerializeFromString int32_t (String.append " " "-x") (Some 0)
  = Throws invalid_argument.
Proof.
  apply (text_invalid_argument int32_t " " "-x" 0);
    first [reflexivity | discriminate].
Defined.

(** ** The raw scalar codec *)

Lemma length_le_bytes (n : nat) (z : Z) : length (le_bytes n z) = n.
Proof.
  revert z. induction n as [|n IH]; intros z; [done|].
  cbn [le_bytes length]. by rewrite IH.
Qed.

(** X15.  The raw scalar encoder copies the whole object: called with
    [*size = sizeof(SCALAR)] it returns [true] and leaves in [*buffer] a
    block that was not allocated before and holds exactly the bytes of
    [value]; every other block of the heap is as it was. *)
Theorem scalar_serializeToBuffer_block (SCALAR : ScalarType) (junk : byte)
    (heap : gmap nat (list byte)) (value : list byte) (p0 : option nat) :
  Z.of_nat (length value) = sizeof SCALAR ->
  exists l,
    Scalar.serializeToBuffer SCALAR junk heap value (Some p0)
      (Some (sizeof SCALAR))
    = Returns (true, Some l, <[l := value]> heap) /\
    heap !! l = None.
Proof.
  intros Hlen. exists (fresh (dom heap)). split.
  - unfold Scalar.serializeToBuffer. cbn [bind CHECK_NOTNULL].
    rewrite CHECK_true by apply Z.eqb_refl.
    cbn [bind new_array memcpy_from].
    rewrite memcpy_in_bounds;
      [| lia | lia | lia | rewrite length_replicate; lia ].
    cbn [bind]. rewrite insert_insert_eq. do 3 f_equal.
    rewrite take_0, Z.add_0_l. cbn [app].
    rewrite drop_ge by (rewrite length_replicate; lia).
    rewrite app_nil_r. apply take_ge. lia.
  - apply not_elem_of_dom. apply is_fresh.
Qed.

Lemma scalar_serializeToBuffer_block_witness :
  exists l,
    Scalar.serializeToBuffer scalar_int x00 {[ 0%nat := [x2a] ]}
      (object_bytes int32_t 42) (Some None) (Some (sizeof scalar_int))
    = Returns (true, Some l,
               <[l := object_bytes int32_t 42]> {[ 0%nat := [x2a] ]}) /\
    ({[ 0%nat := [x2a] ]} : gmap nat (list byte)) !! l = None.
Proof.
  apply (scalar_serializeToBuffer_block scalar_int x00
           {[ 0%nat := [x2a] ]} (object_bytes int32_t 42) None).
  reflexivity.
Defined.

(** X16.  For every scalar type that is not wider than a pointer, the
    raw scalar decoder returns [true] on a buffer of [sizeof(SCALAR)]
    bytes and has then written them over the first bytes of its own
    pointer parameter: the scalar of the caller is as before, whatever
    the buffer holds. *)
Theorem scalar_deSerializeFromBuffer_parameter (SCALAR : ScalarType)
    (bs : list byte) (p : Scalar.pointer) :
  0 <= sizeof SCALAR <= Scalar.sizeof_pointer ->
  sizeof SCALAR <= Z.of_nat (length bs) ->
  Scalar.deSerializeFromBuffer SCALAR (Some bs) (sizeof SCALAR) (Some p)
  = Returns {| Scalar.returned := true;
               Scalar.pointee := Scalar.target p;
               Scalar.parameter :=
                 take (Z.to_nat (sizeof SCALAR)) bs
                 ++ drop (Z.to_nat (sizeof SCALAR))
                      (le_bytes 8 (Scalar.address p)) |}.
Proof.
  unfold Scalar.sizeof_pointer. intros Hsize Hbs.
  unfold Scalar.deSerializeFromBuffer. cbn [bind CHECK_NOTNULL].
  rewrite CHECK_true by apply Z.eqb_refl.
  cbn [bind memcpy_from].
  rewrite memcpy_in_bounds;
    [| lia | lia | lia
     | rewrite length_le_bytes; unfold Scalar.sizeof_pointer; lia ].
  cbn [bind]. by rewrite take_0, Z.add_0_l.
Qed.

Lemma scalar_deSerializeFromBuffer_parameter_witness :
  Scalar.deSerializeFromBuffer scalar_uchar (Some rgb_pixel)
    (sizeof scalar_uchar)
    (Some {| Scalar.address := 4096; Scalar.target := [x00] |})
  = Returns {| Scalar.returned := true;
               Scalar.pointee := [x00];
               Scalar.parameter :=
                 take (Z.to_nat (sizeof scalar_uchar)) rgb_pixel
                 ++ drop (Z.to_nat (sizeof scalar_uchar))
                      (le_bytes 8 4096) |}.
Proof.
  apply (scalar_deSerializeFromBuffer_parameter scalar_uchar rgb_pixel
           {| Scalar.address := 4096; Scalar.target := [x00] |});
    first [split; evaluate | evaluate].
Defined.

(** X17.  For a scalar type wider than a pointer the [memcpy] of the raw
    scalar decoder runs over the end of the pointer parameter: once the
    two checks have passed, the call has undefined behaviour, whatever
    the buffer is. *)
Theorem scalar_deSerializeFromBuffer_overrun (SCALAR : ScalarType)
    (buffer : option (list byte)) (p : Scalar.pointer) :
  Scalar.sizeof_pointer < sizeof SCALAR ->
  Scalar.deSerializeFromBuffer SCALAR buffer (sizeof SCALAR) (Some p)
  = Undefined.
Proof.
  unfold Scalar.sizeof_pointer. intros Hsize.
  unfold Scalar.deSerializeFromBuffer. cbn [bind CHECK_NOTNULL].
  rewrite CHECK_true by apply Z.eqb_refl.
  cbn [bind]. destruct buffer as [bs|]; [|done].
  cbn [memcpy_from]. unfold memcpy.
  rewrite decide_False; [done|].
  rewrite length_le_bytes. unfold Scalar.sizeof_pointer. lia.
Qed.

Lemma scalar_deSerializeFromBuffer_overrun_witness :
  Scalar.deSerializeFromBuffer wide_scalar
    (Some (replicate 16 x00)) (sizeof wide_scalar)
    (Some {| Scalar.address := 4096; Scalar.target := replicate 16 xff |})
  = Undefined.
Proof.
  apply (scalar_deSerializeFromBuffer_overrun wide_scalar
           (Some (replicate 16 x00))
           {| Scalar.address := 4096; Scalar.target := replicate 16 xff |}).
  evaluate.
Defined.

(** ** Dimensions beyond [int] *)

Lemma to_int_wraps (z : Z) : INT_MAX < z < 2 ^ 32 -> to_int z = z - 2 ^ 32.
Proof.
  unfold INT_MAX, to_int. intros Hz.
  replace (z + 2 ^ 31) with (z - 2 ^ 31 + 1 * 2 ^ 32) by lia.
  rewrite Z_mod_plus_full, Z.mod_small; lia.
Qed.

(** X18.  The Eigen string encoder passes [matrix.rows()] and
    [matrix.cols()] on as [int]: a row count between 2^31 and 2^32
    arrives as a negative number and the sign check of the rows aborts
    the process, and so does the sign check of the columns for such a
    column count. *)
Theorem serializeToString_beyond_int (SCALAR : ScalarType)
    (c : Header.methods) (junk : byte) (M : Matrix) (s0 : list byte) :
  0 <= m_rows M < 2 ^ 32 -> 0 <= m_cols M < 2 ^ 32 ->
  INT_MAX < m_rows M \/ INT_MAX < m_cols M ->
  Eigen.serializeToString SCALAR c junk M (Some s0)
  = Fatal (if decide (INT_MAX < m_rows M) then CHECK_GE_rows_0
           else CHECK_GE_cols_0).
Proof.
  intros Hr Hc Hbig.
  unfold Eigen.serializeToString, Raw.serializeToString.
  case_decide as Hrows.
  - rewrite CHECK_false; [done|].
    rewrite to_int_wraps by lia. apply Z.leb_gt. lia.
  - rewrite CHECK_true.
    2:{ rewrite to_int_small by (unfold INT_MAX in Hrows; lia).
        apply Z.leb_le. lia. }
    cbn [bind]. rewrite CHECK_false; [done|].
    rewrite to_int_wraps by lia. apply Z.leb_gt. lia.
Qed.

Lemma serializeToString_beyond_int_witness :
  Eigen.serializeToString scalar_int Header.spec x00 tall_matrix (Some [])
  = Fatal (if decide (INT_MAX < m_rows tall_matrix) then CHECK_GE_rows_0
           else CHECK_GE_cols_0).
Proof.
  apply (serializeToString_beyond_int scalar_int Header.spec x00
           tall_matrix []); first [by left; evaluate | split; evaluate].
Defined.
